(** * Tracee ingestion service: a shallow embedding of [src/spr/mongo/main.py]

    The development follows the three endpoints of the service:
    [upload_tracee] (chunked ingestion of a JSON-lines byte stream),
    [get_stats] (five aggregation pipelines and the risk flags) and
    [get_specific_data] (indicator drill-down with pagination).

    The endpoints are translated line by line.  What they call in the
    Python runtime and in pymongo is modelled next to them:
    - [Py]: Python values, [str], truthiness, [in] on strings,
      [bytes.decode("utf-8")], [str.splitlines], [str.lower], [str.endswith];
    - [Json]: [json.loads] with its default (strict) decoder;
    - [Mongo]: a collection as the list of its documents in stored order,
      [insert_many], the aggregation stages [$match], [$unwind], [$group],
      [$sort] and [find().skip().limit()].

    Limits of the model, none of which is used by a concrete input below:
    Python floats are exact decimals (no binary rounding, overflow or
    underflow); the interpreter's recursion limit, the limit on the number of
    digits of an integer literal and the size limits of BSON are not
    modelled; [repr] of a string treats every code point above U+00A0 as
    printable. *)

From Stdlib Require Import ZArith NArith List String Ascii Strings.Byte Bool Lia.
From Stdlib Require Import DecimalString.
From stdpp Require Import gmap.
Import ListNotations.

Local Open Scope N_scope.
Set Warnings "-register-all".

(** ** Python values *)

Module Py.

(** A Python [str] is a sequence of Unicode code points. *)
Definition pystr := list N.

(** The [str] with the characters of an ASCII literal. *)
Definition py (s : string) : pystr :=
  List.map N_of_ascii (list_ascii_of_string s).

(** A Python [float], kept as the decimal it was read from:
    [FDec neg m e] is [(-1)^neg * m * 10^e]. *)
Inductive pyfloat :=
| FDec (neg : bool) (m : N) (e : Z)
| FNaN
| FInf (neg : bool).

(** The values that [json.loads] builds and that pymongo stores and returns.
    A [dict] keeps its items in insertion order and has [str] keys;
    [VObjectId] is the [_id] that [insert_many] gives a document without one. *)
Inductive value :=
| VNone
| VBool (b : bool)
| VInt (z : Z)
| VFloat (f : pyfloat)
| VStr (s : pystr)
| VList (l : list value)
| VDict (d : list (pystr * value))
| VObjectId (n : N).

(** Exceptions that leave an endpoint, and the [HTTPException]s it raises. *)
Inductive exn :=
| HTTPException (status_code : Z) (detail : pystr)
| UnicodeDecodeError
| TypeError
| ValueError
| AttributeError
| BulkWriteError.

Inductive result (A : Type) :=
| Ok (a : A)
| Raise (e : exn).
Arguments Ok {A} a.
Arguments Raise {A} e.

Definition bind {A B} (r : result A) (k : A -> result B) : result B :=
  match r with
  | Ok a => k a
  | Raise e => Raise e
  end.

Fixpoint pystr_eqb (a b : pystr) : bool :=
  match a, b with
  | [], [] => true
  | x :: a', y :: b' => N.eqb x y && pystr_eqb a' b'
  | _, _ => false
  end.

(** *** dict with [str] keys *)

(** [d.get(k)]: [None] when the key is absent. *)
Fixpoint dict_lookup (k : pystr) (d : list (pystr * value)) : option value :=
  match d with
  | [] => None
  | (k', v) :: d' => if pystr_eqb k k' then Some v else dict_lookup k d'
  end.

(** [d[k] = v]: an existing key keeps its position. *)
Fixpoint dict_set (k : pystr) (v : value) (d : list (pystr * value))
  : list (pystr * value) :=
  match d with
  | [] => [(k, v)]
  | (k', v') :: d' =>
      if pystr_eqb k k' then (k', v) :: d' else (k', v') :: dict_set k v d'
  end.

(** [event.get(k)] on a value that is a [dict]. *)
Definition get (k : string) (v : value) : value :=
  match v with
  | VDict d => match dict_lookup (py k) d with Some x => x | None => VNone end
  | _ => VNone
  end.

(** *** Truthiness: [bool(v)] *)

Definition truthy (v : value) : bool :=
  match v with
  | VNone => false
  | VBool b => b
  | VInt z => negb (Z.eqb z 0)
  | VFloat (FDec _ m _) => negb (N.eqb m 0)
  | VFloat _ => true
  | VStr s => match s with [] => false | _ => true end
  | VList l => match l with [] => false | _ => true end
  | VDict d => match d with [] => false | _ => true end
  | VObjectId _ => true
  end.

(** *** [s in path] for two strings: substring test *)

Fixpoint startswith (p s : pystr) : bool :=
  match p, s with
  | [], _ => true
  | _ :: _, [] => false
  | a :: p', b :: s' => N.eqb a b && startswith p' s'
  end.

Fixpoint contains (needle hay : pystr) : bool :=
  startswith needle hay ||
  match hay with
  | [] => false
  | _ :: hay' => contains needle hay'
  end.

(** [needle in v] where [needle] is a [str]: substring test on a [str],
    membership in a [list], key test on a [dict], [TypeError] on a value
    that is not a container. *)
Definition value_is_str (s : pystr) (v : value) : bool :=
  match v with
  | VStr t => pystr_eqb s t
  | _ => false
  end.

Definition str_in (needle : pystr) (v : value) : result bool :=
  match v with
  | VStr s => Ok (contains needle s)
  | VList l => Ok (existsb (value_is_str needle) l)
  | VDict d => Ok (match dict_lookup needle d with Some _ => true | None => false end)
  | _ => Raise TypeError
  end.

(** *** [str.lower] and [str.endswith] *)

(** [lower] on the letters A-Z.  No other code point lowers to one of the
    letters of the three accepted extensions, so the test of
    [upload_tracee] sees what Python's [lower] gives it. *)
Definition lower_char (c : N) : N :=
  if (65 <=? c) && (c <=? 90) then c + 32 else c.

Definition lower (s : pystr) : pystr := List.map lower_char s.

Definition endswith (s suffix : pystr) : bool :=
  startswith (rev suffix) (rev s).

(** *** [bytes.decode("utf-8")], strict *)

Definition is_cont (b : N) : bool := (128 <=? b) && (b <=? 191).

Definition in_range (lo hi b : N) : bool := (lo <=? b) && (b <=? hi).

(** The range allowed for the second byte after lead byte [b0]: it excludes
    overlong forms, surrogates and code points above U+10FFFF. *)
Definition second_ok (b0 b1 : N) : bool :=
  if b0 =? 224 then in_range 160 191 b1
  else if b0 =? 237 then in_range 128 159 b1
  else if b0 =? 240 then in_range 144 191 b1
  else if b0 =? 244 then in_range 128 143 b1
  else is_cont b1.

Definition cont_bits (b : N) : N := N.land b 63.

Fixpoint utf8_decode (bs : list N) : option pystr :=
  match bs with
  | [] => Some []
  | b0 :: r0 =>
      if b0 <? 128 then option_map (cons b0) (utf8_decode r0)
      else if in_range 194 223 b0 then
        match r0 with
        | b1 :: r1 =>
            if is_cont b1
            then option_map
                   (cons (N.lor (N.shiftl (N.land b0 31) 6) (cont_bits b1)))
                   (utf8_decode r1)
            else None
        | _ => None
        end
      else if in_range 224 239 b0 then
        match r0 with
        | b1 :: b2 :: r2 =>
            if second_ok b0 b1 && is_cont b2
            then option_map
                   (cons (N.lor (N.shiftl (N.land b0 15) 12)
                            (N.lor (N.shiftl (cont_bits b1) 6) (cont_bits b2))))
                   (utf8_decode r2)
            else None
        | _ => None
        end
      else if in_range 240 244 b0 then
        match r0 with
        | b1 :: b2 :: b3 :: r3 =>
            if second_ok b0 b1 && is_cont b2 && is_cont b3
            then option_map
                   (cons (N.lor (N.shiftl (N.land b0 7) 18)
                            (N.lor (N.shiftl (cont_bits b1) 12)
                               (N.lor (N.shiftl (cont_bits b2) 6) (cont_bits b3)))))
                   (utf8_decode r3)
            else None
        | _ => None
        end
      else None
  end.

(** [chunk.decode("utf-8")] *)
Definition decode (chunk : list byte) : result pystr :=
  match utf8_decode (List.map Byte.to_N chunk) with
  | Some s => Ok s
  | None => Raise UnicodeDecodeError
  end.

(** *** [str.splitlines] *)

(** The line boundaries of [str.splitlines]: LF, VT, FF, CR, FS, GS, RS,
    NEL, LINE SEPARATOR and PARAGRAPH SEPARATOR. *)
Definition is_linebreak (c : N) : bool :=
  in_range 10 13 c || in_range 28 30 c || (c =? 133) || (c =? 8232) || (c =? 8233).

Fixpoint splitlines (s : pystr) : list pystr :=
  match s with
  | [] => []
  | c :: r =>
      if is_linebreak c then
        match c, r with
        | 13, 10 :: r' => [] :: splitlines r'
        | _, _ => [] :: splitlines r
        end
      else
        match splitlines r with
        | [] => [[c]]
        | l :: ls => (c :: l) :: ls
        end
  end.

(** *** [str(v)] and [repr(v)] *)

Definition str_of_Z (z : Z) : pystr := py (NilZero.string_of_int (Z.to_int z)).

Definition digits_of_N (n : N) : pystr := py (NilZero.string_of_uint (N.to_uint n)).

Fixpoint strip_zeros_rev (r : pystr) (e : Z) : pystr * Z :=
  match r with
  | c :: r' => if c =? 48 then strip_zeros_rev r' (e + 1)%Z else (r, e)
  | [] => ([], e)
  end.

Definition zeros (n : Z) : pystr := repeat 48 (Z.to_nat n).

(** [repr] of a float: positional notation when the decimal point falls
    within [-4 < decpt <= 16], exponent notation otherwise. *)
Definition float_repr (f : pyfloat) : pystr :=
  match f with
  | FNaN => py "nan"
  | FInf neg => if neg then py "-inf" else py "inf"
  | FDec neg m e =>
      let sign := if neg then py "-" else [] in
      if m =? 0 then sign ++ py "0.0"
      else
        let (r, e') := strip_zeros_rev (rev (digits_of_N m)) e in
        let ds := rev r in
        let n := Z.of_nat (length ds) in
        let decpt := (n + e')%Z in
        if ((decpt <=? -4) || (16 <? decpt))%Z then
          let x := (decpt - 1)%Z in
          let xs := str_of_Z (Z.abs x) in
          sign ++ firstn 1 ds
               ++ (match skipn 1 ds with [] => [] | t => 46 :: t end)
               ++ py "e" ++ (if (x <? 0)%Z then py "-" else py "+")
               ++ (match xs with [_] => 48 :: xs | _ => xs end)
        else if (decpt <=? 0)%Z then sign ++ py "0." ++ zeros (- decpt) ++ ds
        else if (n <=? decpt)%Z then sign ++ ds ++ zeros (decpt - n) ++ py ".0"
        else sign ++ firstn (Z.to_nat decpt) ds ++ 46 :: skipn (Z.to_nat decpt) ds
  end.

Definition hex_char (d : N) : N := if d <? 10 then 48 + d else 87 + d.

Fixpoint hex_fixed (width : nat) (n : N) : pystr :=
  match width with
  | O => []
  | S w => hex_fixed w (n / 16) ++ [hex_char (n mod 16)]
  end.

Definition repr_char (quote c : N) : pystr :=
  if (c =? quote) || (c =? 92) then [92; c]
  else if c =? 9 then py "\t"
  else if c =? 10 then py "\n"
  else if c =? 13 then py "\r"
  else if (c <? 32) || in_range 127 160 c || (c =? 173)
  then py "\x" ++ hex_fixed 2 c
  else if in_range 55296 57343 c then py "\u" ++ hex_fixed 4 c
  else [c].

(** [repr] of a [str]: single quotes, unless the text has a single quote
    and no double quote. *)
Definition repr_str (s : pystr) : pystr :=
  let quote :=
    if existsb (N.eqb 39) s && negb (existsb (N.eqb 34) s) then 34 else 39 in
  quote :: flat_map (repr_char quote) s ++ [quote].

Definition join (sep : pystr) (parts : list pystr) : pystr :=
  match parts with
  | [] => []
  | p :: ps => p ++ flat_map (fun x => sep ++ x) ps
  end.

Fixpoint py_repr (v : value) : pystr :=
  match v with
  | VNone => py "None"
  | VBool b => if b then py "True" else py "False"
  | VInt z => str_of_Z z
  | VFloat f => float_repr f
  | VStr s => repr_str s
  | VList l => py "[" ++ join (py ", ") (List.map py_repr l) ++ py "]"
  | VDict d =>
      py "{"
      ++ join (py ", ")
           (List.map (fun kv => repr_str (fst kv) ++ py ": " ++ py_repr (snd kv)) d)
      ++ py "}"
  | VObjectId n => py "ObjectId('" ++ hex_fixed 24 n ++ py "')"
  end.

(** [str(v)], which is also what an f-string puts for [{v}]. *)
Definition py_str (v : value) : pystr :=
  match v with
  | VStr s => s
  | VObjectId n => hex_fixed 24 n
  | _ => py_repr v
  end.

(** *** dict with keys of any hashable type *)

Definition float_is_int (f : pyfloat) (z : Z) : bool :=
  match f with
  | FDec neg m e =>
      let s := if neg then (- Z.of_N m)%Z else Z.of_N m in
      if (0 <=? e)%Z then (s * 10 ^ e =? z)%Z else (s =? z * 10 ^ (- e))%Z
  | _ => false
  end.

Definition float_eqb (f g : pyfloat) : bool :=
  match f, g with
  | FDec n1 m1 e1, FDec n2 m2 e2 =>
      let s1 := if n1 then (- Z.of_N m1)%Z else Z.of_N m1 in
      let s2 := if n2 then (- Z.of_N m2)%Z else Z.of_N m2 in
      let lo := Z.min e1 e2 in
      (s1 * 10 ^ (e1 - lo) =? s2 * 10 ^ (e2 - lo))%Z
  | FInf a, FInf b => Bool.eqb a b
  | _, _ => false
  end.

(** [a == b] on hashable values: [True == 1 == 1.0]. *)
Definition key_eqb (a b : value) : bool :=
  match a, b with
  | VNone, VNone => true
  | VStr s, VStr t => pystr_eqb s t
  | VObjectId m, VObjectId n => m =? n
  | (VBool _ | VInt _), (VBool _ | VInt _) =>
      let z v := match v with VBool c => if c then 1%Z else 0%Z | VInt i => i | _ => 0%Z end in
      (z a =? z b)%Z
  | VFloat f, (VBool _ | VInt _) =>
      float_is_int f (match b with VBool c => if c then 1%Z else 0%Z | VInt i => i | _ => 0%Z end)
  | (VBool _ | VInt _), VFloat f =>
      float_is_int f (match a with VBool c => if c then 1%Z else 0%Z | VInt i => i | _ => 0%Z end)
  | VFloat f, VFloat g => float_eqb f g
  | _, _ => false
  end.

(** A [list] and a [dict] are unhashable. *)
Definition hashable (v : value) : bool :=
  match v with
  | VList _ | VDict _ => false
  | _ => true
  end.

(** A [dict] from keys to counts, in insertion order. *)
Definition counts := list (value * Z).

Fixpoint counts_store (k : value) (n : Z) (d : counts) : counts :=
  match d with
  | [] => [(k, n)]
  | (k', n') :: d' =>
      if key_eqb k k' then (k', n) :: d' else (k', n') :: counts_store k n d'
  end.

(** [d[k] = n]: [TypeError] on an unhashable key. *)
Definition counts_set (k : value) (n : Z) (d : counts) : result counts :=
  if hashable k then Ok (counts_store k n d) else Raise TypeError.

Definition counts_get (k : value) (d : counts) : option Z :=
  match List.find (fun kv => key_eqb k (fst kv)) d with
  | Some kv => Some (snd kv)
  | None => None
  end.

End Py.

(** ** [json.loads] *)

Module Json.
Import Py.

(** Outcome of a scanning function: the value and the unread rest of the
    text, [JSONDecodeError], or the recursion budget of the model used up. *)
Inductive pres :=
| POk (v : value) (rest : pystr)
| PErr
| PFuel.

(** [WHITESPACE]: space, tab, line feed, carriage return. *)
Definition is_ws (c : N) : bool :=
  (c =? 32) || (c =? 9) || (c =? 10) || (c =? 13).

Fixpoint skip_ws (s : pystr) : pystr :=
  match s with
  | c :: r => if is_ws c then skip_ws r else s
  | [] => []
  end.

Definition is_digit (c : N) : bool := in_range 48 57 c.

Definition hex_digit (c : N) : option N :=
  if in_range 48 57 c then Some (c - 48)
  else if in_range 97 102 c then Some (c - 87)
  else if in_range 65 70 c then Some (c - 55)
  else None.

Definition hex4 (a b c d : N) : option N :=
  match hex_digit a, hex_digit b, hex_digit c, hex_digit d with
  | Some x, Some y, Some z, Some w => Some (((x * 16 + y) * 16 + z) * 16 + w)
  | _, _, _, _ => None
  end.

(** The character a backslash escape other than [\u] stands for. *)
Definition escape_char (e : N) : option N :=
  if e =? 34 then Some 34
  else if e =? 92 then Some 92
  else if e =? 47 then Some 47
  else if e =? 98 then Some 8
  else if e =? 102 then Some 12
  else if e =? 110 then Some 10
  else if e =? 114 then Some 13
  else if e =? 116 then Some 9
  else None.

Definition is_high_surrogate (u : N) : bool := in_range 55296 56319 u.
Definition is_low_surrogate (u : N) : bool := in_range 56320 57343 u.
Definition join_surrogates (hi lo : N) : N :=
  65536 + N.lor (N.shiftl (hi - 55296) 10) (lo - 56320).

Definition consS (c : N) (o : option (pystr * pystr)) : option (pystr * pystr) :=
  match o with
  | Some (s, r) => Some (c :: s, r)
  | None => None
  end.

(** [scanstring], strict: the text after the opening quote, up to and
    including the closing quote. *)
Fixpoint scanstring (s : pystr) : option (pystr * pystr) :=
  match s with
  | [] => None
  | c :: r =>
      if c =? 34 then Some ([], r)
      else if c =? 92 then
        match r with
        | [] => None
        | e :: r1 =>
            if e =? 117 then
              match r1 with
              | h1 :: h2 :: h3 :: h4 :: r2 =>
                  match hex4 h1 h2 h3 h4 with
                  | None => None
                  | Some u =>
                      if is_high_surrogate u then
                        match r2 with
                        | b :: r3 =>
                            match r3 with
                            | k :: g1 :: g2 :: g3 :: g4 :: r4 =>
                                if (b =? 92) && (k =? 117) then
                                  match hex4 g1 g2 g3 g4 with
                                  | None => None
                                  | Some u2 =>
                                      if is_low_surrogate u2
                                      then consS (join_surrogates u u2) (scanstring r4)
                                      else consS u (scanstring r2)
                                  end
                                else consS u (scanstring r2)
                            | _ => consS u (scanstring r2)
                            end
                        | [] => None
                        end
                      else consS u (scanstring r2)
                  end
              | _ => None
              end
            else
              match escape_char e with
              | Some x => consS x (scanstring r1)
              | None => None
              end
        end
      else if c <? 32 then None
      else consS c (scanstring r)
  end.

Fixpoint span_digits (s : pystr) : pystr * pystr :=
  match s with
  | c :: r =>
      if is_digit c
      then let (d, r') := span_digits r in (c :: d, r')
      else ([], s)
  | [] => ([], [])
  end.

Definition digits_value (d : pystr) : N :=
  fold_left (fun acc c => acc * 10 + (c - 48)) d 0.

(** The integer part of a number: [0] or a non-zero digit and more digits. *)
Definition int_part (s : pystr) : option (pystr * pystr) :=
  match s with
  | c :: r =>
      if c =? 48 then Some ([c], r)
      else if in_range 49 57 c
      then let (d, r') := span_digits r in Some (c :: d, r')
      else None
  | [] => None
  end.

(** [.digits], when at least one digit follows the point. *)
Definition frac_part (s : pystr) : pystr * pystr :=
  match s with
  | c :: r =>
      if c =? 46 then
        match span_digits r with
        | ([], _) => ([], s)
        | (d, r') => (d, r')
        end
      else ([], s)
  | [] => ([], s)
  end.

(** [e], an optional sign and digits, when at least one digit follows. *)
Definition exp_part (s : pystr) : option Z * pystr :=
  match s with
  | c :: r =>
      if (c =? 101) || (c =? 69) then
        let (neg, r1) :=
          match r with
          | sg :: r' =>
              if sg =? 45 then (true, r')
              else if sg =? 43 then (false, r')
              else (false, r)
          | [] => (false, r)
          end in
        match span_digits r1 with
        | ([], _) => (None, s)
        | (d, r2) =>
            (Some (if neg then (- Z.of_N (digits_value d))%Z
                   else Z.of_N (digits_value d)), r2)
        end
      else (None, s)
  | [] => (None, s)
  end.

(** A number at the start of [s]: a Python [int] when it has neither a
    fraction nor an exponent, a [float] otherwise. *)
Definition match_number (s : pystr) : option (value * pystr) :=
  let (neg, s1) :=
    match s with
    | c :: r => if c =? 45 then (true, r) else (false, s)
    | [] => (false, s)
    end in
  match int_part s1 with
  | None => None
  | Some (i, r) =>
      let (f, r1) := frac_part r in
      let (e, r2) := exp_part r1 in
      match f, e with
      | [], None =>
          Some (VInt (if neg then (- Z.of_N (digits_value i))%Z
                      else Z.of_N (digits_value i)), r2)
      | _, _ =>
          Some (VFloat (FDec neg (digits_value (i ++ f))
                          (match e with Some x => x | None => 0%Z end
                           - Z.of_nat (length f))%Z), r2)
      end
  end.

(** The constants [null], [true], [false], [NaN], [Infinity], [-Infinity]. *)
Definition constants : list (string * value) :=
  [ ("null", VNone); ("true", VBool true); ("false", VBool false);
    ("NaN", VFloat FNaN); ("Infinity", VFloat (FInf false));
    ("-Infinity", VFloat (FInf true)) ]%string.

Fixpoint match_constant (cs : list (string * value)) (s : pystr)
  : option (value * pystr) :=
  match cs with
  | [] => None
  | (w, v) :: cs' =>
      if startswith (py w) s
      then Some (v, skipn (length (py w)) s)
      else match_constant cs' s
  end.

(** [scan_once], [JSONArray] and [JSONObject]: [parse_elements] reads the
    elements of an array from the first one, [parse_members] the members of
    an object from the first key.  A repeated key keeps its first position
    and takes the last value, as [dict] does. *)
Fixpoint scan_once (fuel : nat) (s : pystr) {struct fuel} : pres :=
  match fuel with
  | O => PFuel
  | S f =>
      match s with
      | [] => PErr
      | c :: r =>
          if c =? 34 then
            match scanstring r with
            | Some (str, r') => POk (VStr str) r'
            | None => PErr
            end
          else if c =? 123 then
            match skip_ws r with
            | c' :: r' =>
                if c' =? 125 then POk (VDict []) r'
                else parse_members f [] (c' :: r')
            | [] => PErr
            end
          else if c =? 91 then
            match skip_ws r with
            | c' :: r' =>
                if c' =? 93 then POk (VList []) r'
                else parse_elements f [] (c' :: r')
            | [] => PErr
            end
          else
            match match_constant constants s with
            | Some (v, r') => POk v r'
            | None =>
                match match_number s with
                | Some (v, r') => POk v r'
                | None => PErr
                end
            end
      end
  end
with parse_elements (fuel : nat) (acc : list value) (s : pystr) {struct fuel} : pres :=
  match fuel with
  | O => PFuel
  | S f =>
      match scan_once f s with
      | POk v r =>
          match skip_ws r with
          | c :: r' =>
              if c =? 93 then POk (VList (rev (v :: acc))) r'
              else if c =? 44 then parse_elements f (v :: acc) (skip_ws r')
              else PErr
          | [] => PErr
          end
      | e => e
      end
  end
with parse_members (fuel : nat) (acc : list (pystr * value)) (s : pystr)
       {struct fuel} : pres :=
  match fuel with
  | O => PFuel
  | S f =>
      match s with
      | q :: r =>
          if q =? 34 then
            match scanstring r with
            | Some (k, r1) =>
                match skip_ws r1 with
                | col :: r2 =>
                    if col =? 58 then
                      match scan_once f (skip_ws r2) with
                      | POk v r3 =>
                          match skip_ws r3 with
                          | c :: r4 =>
                              if c =? 125 then POk (VDict (dict_set k v acc)) r4
                              else if c =? 44
                              then parse_members f (dict_set k v acc) (skip_ws r4)
                              else PErr
                          | [] => PErr
                          end
                      | e => e
                      end
                    else PErr
                | [] => PErr
                end
            | None => PErr
            end
          else PErr
      | [] => PErr
      end
  end.

(** The recursion budget given to a text: no text uses it up
    (see [loads_budget]). *)
Definition fuel_for (s : pystr) : nat := (2 * length s + 2)%nat.

(** [json.loads(line)]: [None] is [JSONDecodeError]. *)
Definition loads (line : pystr) : option value :=
  match scan_once (fuel_for line) (skip_ws line) with
  | POk v r =>
      match skip_ws r with
      | [] => Some v
      | _ => None
      end
  | _ => None
  end.

End Json.


(** ** The document store *)

Module Mongo.
Import Py.

(** A collection is the list of its documents in stored order; the
    database maps the names of the existing collections to them. *)
Definition collection := list value.
Definition database := gmap pystr collection.

Definition list_eqb {A} (eqb : A -> A -> bool) : list A -> list A -> bool :=
  fix go l m :=
    match l, m with
    | [], [] => true
    | x :: l', y :: m' => eqb x y && go l' m'
    | _, _ => false
    end.

(** Equality of two stored values: numbers by their numeric value,
    documents field by field in order. *)
Fixpoint bson_eq (a b : value) : bool :=
  match a, b with
  | VNone, VNone => true
  | VBool x, VBool y => Bool.eqb x y
  | VInt x, VInt y => (x =? y)%Z
  | VInt x, VFloat f => float_is_int f x
  | VFloat f, VInt x => float_is_int f x
  | VFloat FNaN, VFloat FNaN => true
  | VFloat f, VFloat g => float_eqb f g
  | VStr s, VStr t => pystr_eqb s t
  | VObjectId m, VObjectId n => m =? n
  | VList l, VList m => list_eqb bson_eq l m
  | VDict d, VDict e =>
      (fix go (d e : list (pystr * value)) : bool :=
         match d, e with
         | [], [] => true
         | (k, x) :: d', (k', y) :: e' => pystr_eqb k k' && bson_eq x y && go d' e'
         | _, _ => false
         end) d e
  | _, _ => false
  end.

Definition field (k : string) (doc : value) : option value :=
  match doc with
  | VDict d => dict_lookup (py k) d
  | _ => None
  end.

(** *** [insert_many] *)

Definition ids (c : collection) : list value :=
  flat_map (fun doc => match field "_id" doc with Some i => [i] | None => [] end) c.

Definition is_document (v : value) : bool :=
  match v with
  | VDict _ => true
  | _ => false
  end.

(** Ordered insertion of one document after the other: a document without
    [_id] gets a fresh one, a document whose [_id] is already stored stops
    the operation with [BulkWriteError], the documents before it stay. *)
Fixpoint insert_ordered (batch : list value) (c : collection)
  : collection * result unit :=
  match batch with
  | [] => (c, Ok tt)
  | doc :: batch' =>
      match doc with
      | VDict d =>
          match dict_lookup (py "_id") d with
          | Some i =>
              if existsb (bson_eq i) (ids c) then (c, Raise BulkWriteError)
              else insert_ordered batch' (c ++ [doc])
          | None =>
              insert_ordered batch'
                (c ++ [VDict ((py "_id", VObjectId (N.of_nat (length c))) :: d)])
          end
      | _ => (c, Raise TypeError)
      end
  end.

(** [collection.insert_many(batch)]: [TypeError], before anything is
    written, when the batch is empty or one of its elements is not a
    [dict]. *)
Definition insert_many (batch : list value) (c : collection)
  : collection * result unit :=
  match batch with
  | [] => (c, Raise TypeError)
  | _ =>
      if forallb is_document batch then insert_ordered batch c
      else (c, Raise TypeError)
  end.

(** *** Query operators *)

(** [{path: q}] on the value found at the path: the value equals [q], or
    is an array with an element that equals [q]. *)
Definition eq_or_elem (q : value) (v : value) : bool :=
  bson_eq v q ||
  match v with
  | VList l => existsb (fun x => bson_eq x q) l
  | _ => false
  end.

(** [{k: q}] for a field [k] of the document. *)
Definition match_field (k : string) (q : value) (doc : value) : bool :=
  match field k doc with
  | Some v => eq_or_elem q v
  | None => false
  end.

(** [{"k1.k2": q}]: through an embedded document, or through the embedded
    documents of an array. *)
Definition match_path2 (k1 k2 : string) (q : value) (doc : value) : bool :=
  match field k1 doc with
  | Some (VList l) => existsb (match_field k2 q) l
  | Some sub => match_field k2 q sub
  | None => false
  end.

(** [{k: {"$elemMatch": cond}}]: the field is an array and one of its
    elements satisfies [cond]. *)
Definition elem_match (k : string) (cond : value -> bool) (doc : value) : bool :=
  match field k doc with
  | Some (VList l) => existsb cond l
  | _ => false
  end.

(** *** Aggregation stages *)

Definition stage_match (p : value -> bool) (docs : list value) : list value :=
  List.filter p docs.

Definition set_field (k : string) (v : value) (doc : value) : value :=
  match doc with
  | VDict d => VDict (dict_set (py k) v d)
  | _ => doc
  end.

(** [{"$unwind": "$k"}]: one document per element of the array; a document
    where the field is missing, null or an empty array is dropped, a
    document where it is another value is kept as it is. *)
Definition unwind1 (k : string) (doc : value) : list value :=
  match field k doc with
  | None | Some VNone => []
  | Some (VList l) => List.map (fun x => set_field k x doc) l
  | Some _ => [doc]
  end.

Definition stage_unwind (k : string) (docs : list value) : list value :=
  flat_map (unwind1 k) docs.

(** [{"$unwind": "$k1.k2"}], the field [k2] of the embedded document [k1]. *)
Definition unwind2 (k1 k2 : string) (doc : value) : list value :=
  match field k1 doc with
  | Some (VDict d) =>
      List.map (fun sub => set_field k1 sub doc) (unwind1 k2 (VDict d))
  | _ => []
  end.

Definition stage_unwind2 (k1 k2 : string) (docs : list value) : list value :=
  flat_map (unwind2 k1 k2) docs.

(** The expressions ["$k"], ["$k1.k2"] and ["$k1.k2.k3"]; a missing field
    gives the group key null. *)
Definition expr1 (k : string) (doc : value) : value :=
  match field k doc with
  | Some v => v
  | None => VNone
  end.

Definition expr_sub (k : string) (v : option value) : option value :=
  match v with
  | Some (VDict d) => dict_lookup (py k) d
  | Some (VList l) =>
      Some (VList (flat_map
                     (fun x => match field k x with Some y => [y] | None => [] end) l))
  | _ => None
  end.

Definition expr2 (k1 k2 : string) (doc : value) : value :=
  match expr_sub k2 (field k1 doc) with
  | Some v => v
  | None => VNone
  end.

Definition expr3 (k1 k2 k3 : string) (doc : value) : value :=
  match expr_sub k3 (expr_sub k2 (field k1 doc)) with
  | Some v => v
  | None => VNone
  end.

(** The output of [$group] with [{"count": {"$sum": 1}}]: one item
    [(_id, count)] per distinct key.  The store does not fix the order of
    the groups; the model takes the order in which the keys first occur,
    and no theorem below depends on it. *)
Fixpoint group_add (k : value) (g : list (value * Z)) : list (value * Z) :=
  match g with
  | [] => [(k, 1%Z)]
  | (k', n) :: g' =>
      if bson_eq k k' then (k', (n + 1)%Z) :: g' else (k', n) :: group_add k g'
  end.

Definition stage_group (key : value -> value) (docs : list value)
  : list (value * Z) :=
  fold_left (fun g doc => group_add (key doc) g) docs [].

(** [{"$sort": {"count": -1}}]: by count, largest first; items with the
    same count stay in their order. *)
Fixpoint sort_insert (x : value * Z) (l : list (value * Z)) : list (value * Z) :=
  match l with
  | [] => [x]
  | y :: l' =>
      if (snd y <=? snd x)%Z then x :: y :: l' else y :: sort_insert x l'
  end.

Definition stage_sort (g : list (value * Z)) : list (value * Z) :=
  fold_right sort_insert [] g.

(** *** [find(query).skip(offset).limit(limit)] *)

(** [skip] raises [ValueError] on a negative number; a limit of 0 is no
    limit, a negative limit [-n] returns at most [n] documents. *)
Definition find_skip_limit (query : value -> bool) (offset limit : Z)
    (c : collection) : result (list value) :=
  if (offset <? 0)%Z then Raise ValueError
  else
    let found := skipn (Z.to_nat offset) (List.filter query c) in
    Ok (if (limit =? 0)%Z then found else firstn (Z.to_nat (Z.abs limit)) found).

End Mongo.

(** ** The endpoints of [main.py] *)

Module App.
Import Py Mongo.

Definition SENSITIVE_PATHS : list pystr :=
  [py "/etc/passwd"; py "/etc/shadow"; py "/root"; py ".ssh"].

Definition SHELL_BINARIES : list pystr :=
  [py "/bin/sh"; py "/bin/bash"; py "sh"; py "bash"].

(** *** [upload_tracee] *)

Record UploadFile := { filename : pystr; content : list byte }.

Definition allowed_extensions : list pystr := [py ".json"; py ".jsonl"; py ".log"].

Definition batch_size : Z := 1000.

(** The local variables of the upload: the collection written so far, the
    pending batch and the running count. *)
Record ingest := { stored : collection; batch : list value; inserted_count : Z }.

(** [for line in lines]: a line that does not parse is skipped; a line that
    parses is appended to the batch, and a batch of [batch_size] is
    written and emptied. *)
Fixpoint for_lines (lines : list pystr) (st : ingest) : ingest * result unit :=
  match lines with
  | [] => (st, Ok tt)
  | line :: lines' =>
      match Json.loads line with
      | None => for_lines lines' st
      | Some event =>
          let b := batch st ++ [event] in
          if (batch_size <=? Z.of_nat (length b))%Z then
            match insert_many b (stored st) with
            | (c, Ok _) =>
                for_lines lines'
                  {| stored := c; batch := [];
                     inserted_count := (inserted_count st + Z.of_nat (length b))%Z |}
            | (c, Raise e) =>
                ({| stored := c; batch := b; inserted_count := inserted_count st |},
                 Raise e)
            end
          else
            for_lines lines'
              {| stored := stored st; batch := b; inserted_count := inserted_count st |}
      end
  end.

(** [file.read(size)]: the next [size] bytes, fewer at the end of the
    stream, and the rest of the stream. *)
Definition read (size : Z) (stream : list byte) : list byte * list byte :=
  (firstn (Z.to_nat size) stream, skipn (Z.to_nat size) stream).

(** [while True]: read a chunk, stop when it is empty, decode it, split it
    into lines and process them.  [None]: the loop did not end within
    [fuel] rounds. *)
Fixpoint read_loop (fuel : nat) (size : Z) (stream : list byte) (st : ingest)
  : option (ingest * result unit) :=
  match fuel with
  | O => None
  | S fuel' =>
      let (chunk, rest) := read size stream in
      match chunk with
      | [] => Some (st, Ok tt)
      | _ =>
          match decode chunk with
          | Raise e => Some (st, Raise e)
          | Ok text =>
              match for_lines (splitlines text) st with
              | (st', Ok _) => read_loop fuel' size rest st'
              | (st', Raise e) => Some (st', Raise e)
              end
          end
      end
  end.

(** [if batch: insert_many(batch)] after the loop. *)
Definition flush (st : ingest) : ingest * result unit :=
  match batch st with
  | [] => (st, Ok tt)
  | b =>
      match insert_many b (stored st) with
      | (c, Ok _) =>
          ({| stored := c; batch := [];
              inserted_count := (inserted_count st + Z.of_nat (length b))%Z |}, Ok tt)
      | (c, Raise e) =>
          ({| stored := c; batch := b; inserted_count := inserted_count st |}, Raise e)
      end
  end.

(** [except BulkWriteError as e: raise HTTPException(500, str(e))] *)
Definition on_bulk_write_error (e : exn) : exn :=
  match e with
  | BulkWriteError => HTTPException 500 (py "batch op errors occurred")
  | _ => e
  end.

Record upload_response := { collection_name : pystr; documents_inserted : Z }.

(** The upload with chunks of [size] bytes.  The result is the database
    after the call and the response or the exception. *)
Definition upload_with (size : Z) (db : database) (name : pystr) (file : UploadFile)
  : option (database * result upload_response) :=
  if negb (existsb (endswith (lower (filename file))) allowed_extensions)
  then Some (db, Raise (HTTPException 400 (py "File must be .json, .jsonl, or .log")))
  else
    let c := match db !! name with Some c => c | None => [] end in
    let st0 := {| stored := c; batch := []; inserted_count := 0 |} in
    match read_loop (S (length (content file))) size (content file) st0 with
    | None => None
    | Some (st, Raise e) =>
        Some (<[name := stored st]> db, Raise (on_bulk_write_error e))
    | Some (st, Ok _) =>
        match flush st with
        | (st', Raise e) =>
            Some (<[name := stored st']> db, Raise (on_bulk_write_error e))
        | (st', Ok _) =>
            Some (<[name := stored st']> db,
                  Ok {| collection_name := name;
                        documents_inserted := inserted_count st' |})
        end
    end.

(** [upload_tracee(file)], where [name] is the fresh collection name made
    of the time and a random suffix. *)
Definition upload_tracee (db : database) (name : pystr) (file : UploadFile)
  : option (database * result upload_response) :=
  upload_with (1024 * 1024) db name file.

(** *** [get_stats] *)

(** [{item["_id"]: item["count"] for item in results}] *)
Fixpoint dict_of_items (items : list (value * Z)) (d : counts) : result counts :=
  match items with
  | [] => Ok d
  | (k, n) :: items' => bind (counts_set k n d) (dict_of_items items')
  end.

(** [any(s in path for s in needles)] *)
Fixpoint any_in (needles : list pystr) (path : value) : result bool :=
  match needles with
  | [] => Ok false
  | s :: needles' =>
      bind (str_in s path) (fun b => if b then Ok true else any_in needles' path)
  end.

(** [[path for path in d if any(s in path for s in needles)]] *)
Fixpoint hits (needles : list pystr) (keys : list value) : result (list value) :=
  match keys with
  | [] => Ok []
  | path :: keys' =>
      bind (any_in needles path) (fun b =>
      bind (hits needles keys') (fun l => Ok (if b then path :: l else l)))
  end.

(** [any(any(s in k for s in needles) for k in d)] *)
Fixpoint any_key (needles : list pystr) (keys : list value) : result bool :=
  match keys with
  | [] => Ok false
  | k :: keys' =>
      bind (any_in needles k) (fun b => if b then Ok true else any_key needles keys')
  end.

(** The pipeline shared by the file, command and address aggregations:
    [$match eventName], [$unwind $args], [$match args.name],
    [$group $args.value], [$sort count]. *)
Definition arg_pipeline (event_name arg_name : string) (c : collection)
  : list (value * Z) :=
  stage_sort
    (stage_group (expr2 "args" "value")
       (stage_match (match_path2 "args" "name" (VStr (py arg_name)))
          (stage_unwind "args"
             (stage_match (match_field "eventName" (VStr (py event_name))) c)))).

Definition syscall_pipeline (c : collection) : list (value * Z) :=
  stage_sort (stage_group (expr1 "eventName") c).

Definition dns_pipeline (c : collection) : list (value * Z) :=
  stage_sort
    (stage_group (expr3 "args" "value" "query")
       (stage_unwind2 "args" "value"
          (stage_match (match_path2 "args" "name" (VStr (py "dns_questions")))
             (stage_unwind "args"
                (stage_match
                   (match_field "eventName" (VStr (py "net_packet_dns_request"))) c))))).

(** The key under which an address is counted. *)
Definition ip_key (addr : value) : value :=
  match addr with
  | VDict d =>
      let ip := match dict_lookup (py "ip") d with
                | Some v => v | None => VStr (py "unknown") end in
      let port := match dict_lookup (py "port") d with
                  | Some v => v | None => VStr [] end in
      if truthy port then VStr (py_str ip ++ py ":" ++ py_str port) else ip
  | _ => VStr (py_str addr)
  end.

(** [for item in ip_results: ... ip_usage[key] = item["count"]] *)
Fixpoint ip_loop (items : list (value * Z)) (ip_usage : counts) : result counts :=
  match items with
  | [] => Ok ip_usage
  | (addr, n) :: items' =>
      bind (counts_set (ip_key addr) n ip_usage) (ip_loop items')
  end.

Record report := {
  collection : pystr;
  total_events : Z;
  syscall_profile : counts;
  file_access : counts;
  executed_commands : counts;
  ips : counts;
  dns_records : counts;
  risk_flags : list pystr
}.

Definition append_if (b : bool) (flag : string) (flags : list pystr) : list pystr :=
  if b then flags ++ [py flag] else flags.

Definition get_stats (db : database) (name : pystr) : result report :=
  match db !! name with
  | None => Raise (HTTPException 404 (py "Collection not found"))
  | Some c =>
      let total := Z.of_nat (length c) in
      bind (dict_of_items (syscall_pipeline c) []) (fun syscalls =>
      bind (dict_of_items (arg_pipeline "openat" "pathname" c) []) (fun files =>
      bind (hits SENSITIVE_PATHS (List.map fst files)) (fun sensitive_hits =>
      bind (dict_of_items (arg_pipeline "execve" "pathname" c) []) (fun commands =>
      bind (any_key SHELL_BINARIES (List.map fst commands)) (fun shell_spawned =>
      bind (ip_loop (arg_pipeline "connect" "addr" c) []) (fun ip_usage =>
      bind (dict_of_items (dns_pipeline c) []) (fun dns_usage =>
      let flags := [] in
      let flags := append_if (truthy (VList sensitive_hits))
                     "sensitive_file_access" flags in
      let flags := append_if shell_spawned "shell_spawned" flags in
      let flags := append_if (match ip_usage with [] => false | _ => true end)
                     "network_activity" flags in
      bind (any_key [py "/proc"] (List.map fst files)) (fun procfs =>
      let flags := append_if procfs "procfs_access" flags in
      Ok {| collection := name;
            total_events := total;
            syscall_profile := syscalls;
            file_access := files;
            executed_commands := commands;
            ips := ip_usage;
            dns_records := dns_usage;
            risk_flags := flags |}))))))))
  end.

(** *** [get_specific_data] *)

(** [if dns:] on an optional query parameter. *)
Definition given (q : option pystr) : bool :=
  match q with
  | Some (_ :: _) => true
  | _ => false
  end.

Definition text (q : option pystr) : pystr :=
  match q with
  | Some s => s
  | None => []
  end.

(** The three queries. *)
Definition dns_query (dns : pystr) (doc : value) : bool :=
  match_field "eventName" (VStr (py "net_packet_dns_request")) doc &&
  elem_match "args"
    (fun a => match_field "name" (VStr (py "dns_questions")) a &&
              elem_match "value" (match_field "query" (VStr dns)) a) doc.

Definition arg_query (event_name : string) (v : pystr) (doc : value) : bool :=
  match_field "eventName" (VStr (py event_name)) doc &&
  elem_match "args"
    (fun a => match_field "name" (VStr (py "pathname")) a &&
              match_field "value" (VStr v) a) doc.

(** [event.get("executable", {}).get("path")] *)
Definition executable_path (event : value) : result value :=
  match field "executable" event with
  | None => Ok VNone
  | Some (VDict d) =>
      Ok (match dict_lookup (py "path") d with Some v => v | None => VNone end)
  | Some _ => Raise AttributeError
  end.

(** The record built for an event of the DNS and of the file query. *)
Definition project (event : value) : result value :=
  bind (executable_path event) (fun exe =>
  Ok (VDict [ (py "process", get "processName" event);
              (py "process_id", get "processId" event);
              (py "executable", exe);
              (py "timestamp", get "timestamp" event);
              (py "args", get "args" event) ])).

(** The record built for an event of the command query. *)
Definition project_command (event : value) : result value :=
  bind (executable_path event) (fun exe =>
  Ok (VDict [ (py "process", get "processName" event);
              (py "process_id", get "processId" event);
              (py "parent_process_id", get "parentProcessId" event);
              (py "executable", exe);
              (py "timestamp", get "timestamp" event);
              (py "args", get "args" event) ])).

(** [for event in cursor: results.append(...)] *)
Fixpoint for_events (proj : value -> result value) (events : list value)
  : result (list value) :=
  match events with
  | [] => Ok []
  | e :: events' =>
      bind (proj e) (fun r =>
      bind (for_events proj events') (fun rs => Ok (r :: rs)))
  end.

(** [{"specific": {kind: {indicator: results}}}] *)
Definition specific (kind : string) (indicator : pystr) (results : list value) : value :=
  VDict [(py "specific", VDict [(py kind, VDict [(indicator, VList results)])])].

(** The defaults of [limit] and [offset] in the signature. *)
Definition default_limit : Z := 50.
Definition default_offset : Z := 0.

Definition get_specific_data (db : database) (name : pystr)
    (dns command file : option pystr) (limit offset : Z) : result value :=
  match db !! name with
  | None => Raise (HTTPException 404 (py "Collection not found"))
  | Some c =>
      if given dns then
        bind (find_skip_limit (dns_query (text dns)) offset limit c) (fun cursor =>
        bind (for_events project cursor) (fun results =>
        Ok (specific "dns_calls" (text dns) results)))
      else if given command then
        bind (find_skip_limit (arg_query "execve" (text command)) offset limit c)
          (fun cursor =>
        bind (for_events project_command cursor) (fun results =>
        Ok (specific "command_calls" (text command) results)))
      else if given file then
        bind (find_skip_limit (arg_query "openat" (text file)) offset limit c)
          (fun cursor =>
        bind (for_events project cursor) (fun results =>
        Ok (specific "file_access" (text file) results)))
      else
        Raise (HTTPException 400
                 (py "Provide one of: dns, command, or file query parameter"))
  end.

End App.

(** ** Inputs and the vocabulary of the statements *)

Import Py Mongo App.

(** The bytes of an ASCII text in which the single quote stands for the
    double quote of JSON. *)
Definition dq (a : ascii) : ascii :=
  if Ascii.eqb a "'" then ascii_of_N 34 else a.

Definition jsonl (s : string) : list byte :=
  List.map (fun a => byte_of_ascii (dq a)) (list_ascii_of_string s).

Definition trace_name : pystr := py "tracee_20260101_000000_abcdef".

(** The database after the upload of a text to an empty database. *)
Definition ingested (s : string) : database :=
  match upload_tracee ∅ trace_name {| filename := py "trace.jsonl"; content := jsonl s |} with
  | Some (db, _) => db
  | None => ∅
  end.

Definition the_collection (db : database) : Mongo.collection :=
  match db !! trace_name with
  | Some c => c
  | None => []
  end.

(** One DNS request of a process that has a parent process. *)
Definition dns_trace : string :=
  "{'timestamp':1,'processId':42,'parentProcessId':7,'processName':'curl','eventName':'net_packet_dns_request','executable':{'path':'/usr/bin/curl'},'args':[{'name':'dns_questions','value':[{'query':'example.com'}]}]}
{'timestamp':2,'processId':43,'parentProcessId':7,'processName':'ls','eventName':'execve','executable':{'path':'/bin/ls'},'args':[{'name':'pathname','value':'/bin/ls'}]}
".

(** Five executions of [/bin/ls] among other events. *)
Definition ls_trace : string :=
  "{'timestamp':10,'processId':1,'eventName':'execve','args':[{'name':'pathname','value':'/bin/ls'}]}
{'timestamp':11,'processId':2,'eventName':'execve','args':[{'name':'pathname','value':'/bin/cat'}]}
{'timestamp':12,'processId':3,'eventName':'execve','args':[{'name':'pathname','value':'/bin/ls'}]}
{'timestamp':13,'processId':4,'eventName':'execve','args':[{'name':'pathname','value':'/bin/ls'}]}
{'timestamp':14,'processId':5,'eventName':'openat','args':[{'name':'pathname','value':'/bin/ls'}]}
{'timestamp':15,'processId':6,'eventName':'execve','args':[{'name':'pathname','value':'/bin/ls'}]}
{'timestamp':16,'processId':7,'eventName':'execve','args':[{'name':'pathname','value':'/bin/ls'}]}
".

(** The records of a drill-down response. *)
Definition records (response : result value) : list value :=
  match response with
  | Ok (VDict [(_, VDict [(_, VDict [(_, VList rs)])])]) => rs
  | _ => []
  end.

Definition record_field (k : string) (r : value) : option value :=
  match r with
  | VDict d => dict_lookup (py k) d
  | _ => None
  end.

(** The [process_id] of the records of a drill-down response. *)
Definition process_ids (response : result value) : list value :=
  List.map (get "process_id") (records response).

(** Skip [offset] matches and keep at most [limit] of the following ones. *)
Definition page (offset limit : Z) (matches : list value) : list value :=
  firstn (Z.to_nat limit) (skipn (Z.to_nat offset) matches).



(** A key that is a string with one of the needles as a substring. *)
Definition key_has (needles : list pystr) (k : value) : bool :=
  match k with
  | VStr path => existsb (fun s => contains s path) needles
  | _ => false
  end.

Definition some_key_has (needles : list pystr) (d : counts) : bool :=
  existsb (key_has needles) (List.map fst d).

Definition tag_if (b : bool) (tag : string) : list pystr :=
  if b then [py tag] else [].

(** The risk flags as the specification lists them: each tag when its
    predicate holds, in the order of the four rules. *)
Definition expected_flags (files commands ip_usage : counts) : list pystr :=
  tag_if (some_key_has [py "/etc/passwd"; py "/etc/shadow"; py "/root"; py ".ssh"] files)
    "sensitive_file_access"
  ++ tag_if (some_key_has [py "/bin/sh"; py "/bin/bash"; py "sh"; py "bash"] commands)
       "shell_spawned"
  ++ tag_if (negb (Nat.eqb (length ip_usage) 0)) "network_activity"
  ++ tag_if (some_key_has [py "/proc"] files) "procfs_access".

(** A trace with a sensitive file, a shell, a connection and procfs. *)
Definition risky_trace : string :=
  "{'eventName':'openat','args':[{'name':'pathname','value':'/home/u/.ssh/id_rsa'}]}
{'eventName':'openat','args':[{'name':'pathname','value':'/proc/self/maps'}]}
{'eventName':'execve','args':[{'name':'pathname','value':'/usr/bin/bash'}]}
{'eventName':'connect','args':[{'name':'addr','value':{'ip':'10.0.0.1','port':443}}]}
".

(** *** Counting argument pairs *)

(** The value of an element of [args] that is a pair of the name
    [arg_name] with a string value. *)
Definition pair_value (arg_name : string) (a : value) : list pystr :=
  match a with
  | VDict pd =>
      match dict_lookup (py "name") pd, dict_lookup (py "value") pd with
      | Some (VStr n), Some (VStr x) => if pystr_eqb n (py arg_name) then [x] else []
      | _, _ => []
      end
  | _ => []
  end.

(** The values of all the pairs named [arg_name] of an event of the kind
    [event_name], one per pair, first or not. *)
Definition event_values (event_name arg_name : string) (e : value) : list pystr :=
  match field "eventName" e, field "args" e with
  | Some (VStr n), Some (VList l) =>
      if pystr_eqb n (py event_name) then flat_map (pair_value arg_name) l else []
  | _, _ => []
  end.

(** How many pairs named [arg_name] with the value [p] the events of the
    kind [event_name] have in a collection. *)
Definition occurrences (event_name arg_name : string) (p : pystr)
    (c : Mongo.collection) : Z :=
  Z.of_nat (length (List.filter (pystr_eqb p)
                      (flat_map (event_values event_name arg_name) c))).

(** The events of the shape the aggregations are written for: the event
    name is a string, [args] is a list of pairs whose name is a string, and
    the value of a pair named [arg_name] is a string. *)
Definition pair_ok (arg_name : string) (a : value) : bool :=
  match a with
  | VDict pd =>
      match dict_lookup (py "name") pd with
      | Some (VStr n) =>
          if pystr_eqb n (py arg_name)
          then match dict_lookup (py "value") pd with
               | Some (VStr _) => true
               | _ => false
               end
          else true
      | _ => false
      end
  | _ => false
  end.

Definition well_shaped (arg_name : string) (e : value) : bool :=
  match e with
  | VDict d =>
      match dict_lookup (py "eventName") d, dict_lookup (py "args") d with
      | Some (VStr _), Some (VList l) => forallb (pair_ok arg_name) l
      | _, _ => false
      end
  | _ => false
  end.

Definition count_of (n : Z) : option Z := if (n =? 0)%Z then None else Some n.

(** One file-open event with two [pathname] pairs of the same value. *)
Definition twice_trace : string :=
  "{'eventName':'openat','args':[{'name':'pathname','value':'/tmp/x'},{'name':'flags','value':0},{'name':'pathname','value':'/tmp/x'}]}
".

Definition is_str (v : value) : bool :=
  match v with
  | VStr _ => true
  | _ => false
  end.

(** The documents that reach [$group] in [arg_pipeline], as group keys. *)
Definition group_keys (event_name arg_name : string) (c : Mongo.collection)
  : list value :=
  List.map (expr2 "args" "value")
    (stage_match (match_path2 "args" "name" (VStr (py arg_name)))
       (stage_unwind "args"
          (stage_match (match_field "eventName" (VStr (py event_name))) c))).

(** The keys of a map are strings. *)
Definition str_keys (g : list (value * Z)) : Prop :=
  Forall (fun k => is_str k = true) (List.map fst g).

(** *** Streams *)

(** The bytes are the UTF-8 form of one character. *)
Definition one_char (bs : list byte) : Prop :=
  exists cp, utf8_decode (List.map Byte.to_N bs) = Some [cp].

Definition accepted (fname : pystr) : bool :=
  existsb (endswith (lower fname)) allowed_extensions.

(** [n] copies of [x]. *)
Definition replicate {A} (n : N) (x : A) : list A := N.iter n (cons x) [].

(** The count of a response, when the upload answers. *)
Definition inserted (o : option (database * result upload_response))
  : option (result Z) :=
  match o with
  | Some (_, Ok r) => Some (Ok (documents_inserted r))
  | Some (_, Raise e) => Some (Raise e)
  | None => None
  end.

(** The lines of a whole stream. *)
Definition stream_lines (stream : list byte) : list pystr :=
  match decode stream with
  | Ok t => splitlines t
  | Raise _ => []
  end.

(** A line that parses to an event, and a line that does not parse. *)
Definition is_event_line (line : pystr) : bool :=
  match Json.loads line with
  | Some (VDict _) => true
  | _ => false
  end.

Definition is_malformed_line (line : pystr) : bool :=
  match Json.loads line with
  | None => true
  | Some _ => false
  end.

Definition count_lines (p : pystr -> bool) (stream : list byte) : Z :=
  Z.of_nat (length (List.filter p (stream_lines stream))).

(** [n] empty lines. *)
Definition blank (n : N) : list byte := replicate n x0a.

(** An event line in two parts: its first 20 bytes and the rest with the
    line feed. *)
Definition event_head : list byte := jsonl "{'eventName':'openat".

Definition event_tail : list byte :=
  jsonl "','args':[{'name':'pathname','value':'/etc/passwd'}]}" ++ [x0a].

Definition event_line : list byte := event_head ++ event_tail.

(** An event line and a line that is not JSON, 79 bytes. *)
Definition first_lines : list byte :=
  jsonl "{'eventName':'execve','args':[{'name':'pathname','value':'/bin/ls'}]}"
  ++ [x0a] ++ jsonl "not json" ++ [x0a].

(** Empty lines and then the event line, whose first 20 bytes are the last
    bytes of the first chunk of 1 MiB. *)
Definition spanning_stream : list byte :=
  [] ++ blank (1024 * 1024 - 20) ++ event_head ++ event_tail.

(** The same after the two first lines: two event lines, one line that is
    not JSON and the empty lines. *)
Definition mixed_stream : list byte :=
  first_lines ++ blank (1024 * 1024 - 99) ++ event_head ++ event_tail.

(** What the upload makes of a sequence of lines: the loop over the lines
    and the last batch. *)
Definition ingest_lines (db : database) (name : pystr) (lines : list pystr)
  : database * result upload_response :=
  let c := match db !! name with Some c => c | None => [] end in
  match for_lines lines {| stored := c; batch := []; inserted_count := 0 |} with
  | (st, Raise e) => (<[name := stored st]> db, Raise (on_bulk_write_error e))
  | (st, Ok _) =>
      match flush st with
      | (st', Raise e) => (<[name := stored st']> db, Raise (on_bulk_write_error e))
      | (st', Ok _) =>
          (<[name := stored st']> db,
           Ok {| collection_name := name; documents_inserted := inserted_count st' |})
      end
  end.

Definition is_ascii (b : byte) : bool := Byte.to_N b <? 128.

Definition text_of (bs : list byte) : pystr := List.map Byte.to_N bs.

(** The letter e with an acute accent, bytes C3 A9, with its first byte as
    the last byte of the first chunk. *)
Definition accent_pre : list byte := replicate (1024 * 1024 - 1) "a"%byte.

Definition accent_stream : list byte := accent_pre ++ [xc3] ++ [xa9] ++ [x0a].

Definition trace_file (stream : list byte) : UploadFile :=
  {| filename := py "trace.jsonl"; content := stream |}.

(** A line that parses to an event without an [_id] of its own, so that
    writing it cannot collide with a stored document. *)
Definition is_plain_event_line (line : pystr) : bool :=
  match Json.loads line with
  | Some (VDict d) =>
      match dict_lookup (py "_id") d with
      | None => true
      | Some _ => false
      end
  | _ => false
  end.

Definition is_plain_event (doc : value) : bool :=
  match doc with
  | VDict d =>
      match dict_lookup (py "_id") d with
      | None => true
      | Some _ => false
      end
  | _ => false
  end.

(** The number of event lines among the lines. *)
Definition events_of (lines : list pystr) : Z :=
  Z.of_nat (length (List.filter is_event_line lines)).

(** * Theorems *)

(** ** The recursion budget of [json.loads] *)

Section JsonFuel.
Import Json.

Lemma skip_ws_length s : (length (skip_ws s) <= length s)%nat.
Proof.
  induction s as [|c s IH]; simpl; [lia|].
  destruct (is_ws c); simpl; lia.
Qed.

Lemma consS_some c o x r :
  consS c o = Some (x, r) -> exists x', o = Some (x', r).
Proof.
  destruct o as [[x' r']|]; simpl; [|discriminate].
  intros H. inversion H; subst. eauto.
Qed.

Lemma scanstring_length n : forall s x r,
  (length s <= n)%nat -> scanstring s = Some (x, r) -> (length r < length s)%nat.
Proof.
  induction n as [|n IH]; intros s x r Hn H.
  - destruct s; [discriminate|simpl in Hn; lia].
  - destruct s as [|c s]; [discriminate|]. cbn [scanstring] in H. simpl in Hn.
    repeat match type of H with
           | (if ?b then _ else _) = _ => destruct b
           | match ?l with [] => _ | _ :: _ => _ end = _ => destruct l; simpl in Hn
           | match ?o with Some _ => _ | None => _ end = _ => destruct o
           | None = Some _ => discriminate
           | Some _ = Some _ => inversion H; subst; simpl; lia
           | consS _ (scanstring _) = Some _ =>
               apply consS_some in H as (x' & H); apply IH in H; simpl in *; lia
           end.
Qed.

Lemma span_digits_length s d r :
  span_digits s = (d, r) -> (length r <= length s)%nat.
Proof.
  revert d r. induction s as [|c s IH]; intros d r H; simpl in H.
  - inversion H. simpl. lia.
  - destruct (is_digit c).
    + destruct (span_digits s) as [d' r'] eqn:E. inversion H; subst.
      specialize (IH _ _ eq_refl). simpl. lia.
    + inversion H. simpl. lia.
Qed.

Lemma int_part_length s i r :
  int_part s = Some (i, r) -> (length r < length s)%nat.
Proof.
  destruct s as [|c s]; simpl; [discriminate|].
  destruct (c =? 48); [intros H; inversion H; simpl; lia|].
  destruct (in_range 49 57 c); [|discriminate].
  destruct (span_digits s) as [d r'] eqn:E. intros H. inversion H; subst.
  apply span_digits_length in E. simpl. lia.
Qed.

Lemma frac_part_length s : (length (snd (frac_part s)) <= length s)%nat.
Proof.
  destruct s as [|c s]; simpl; [lia|].
  destruct (c =? 46); simpl; [|lia].
  destruct (span_digits s) as [[|d ds] r] eqn:E; simpl; [lia|].
  apply span_digits_length in E. lia.
Qed.

Lemma exp_part_length s : (length (snd (exp_part s)) <= length s)%nat.
Proof.
  destruct s as [|c s]; simpl; [lia|].
  destruct ((c =? 101) || (c =? 69)); simpl; [|lia].
  destruct s as [|sg s']; simpl; [lia|].
  destruct (sg =? 45); [|destruct (sg =? 43)];
    match goal with
    | |- context [span_digits ?l] =>
        destruct (span_digits l) as [[|d ds] r2] eqn:E; simpl; try lia;
        apply span_digits_length in E; simpl in *; lia
    end.
Qed.

Lemma match_number_length s v r :
  match_number s = Some (v, r) -> (length r < length s)%nat.
Proof.
  unfold match_number.
  assert (Hs : forall s1 neg, (length s1 <= length s)%nat ->
            (let (neg, s1) := (neg : bool, s1) in
             match int_part s1 with
             | None => None
             | Some (i, r0) =>
                 let (f, r1) := frac_part r0 in
                 let (e, r2) := exp_part r1 in
                 match f, e with
                 | [], None =>
                     Some (VInt (if neg then (- Z.of_N (digits_value i))%Z
                                 else Z.of_N (digits_value i)), r2)
                 | _, _ =>
                     Some (VFloat (FDec neg (digits_value (i ++ f))
                                     (match e with Some x => x | None => 0%Z end
                                      - Z.of_nat (length f))%Z), r2)
                 end
             end) = Some (v, r) -> (length r < length s)%nat).
  { intros s1 neg Hl H. cbv beta iota in H.
    destruct (int_part s1) as [[i r0]|] eqn:Ei; [|discriminate].
    apply int_part_length in Ei.
    pose proof (frac_part_length r0) as Hf. destruct (frac_part r0) as [f r1].
    pose proof (exp_part_length r1) as He. destruct (exp_part r1) as [e r2].
    simpl in Hf, He. destruct f, e; inversion H; subst; lia. }
  destruct s as [|c s']; [apply Hs; lia|].
  destruct (c =? 45); apply Hs; simpl; lia.
Qed.

Lemma startswith_length p s : startswith p s = true -> (length p <= length s)%nat.
Proof.
  revert s. induction p as [|a p IH]; intros [|b s]; simpl; try lia; try discriminate.
  intros H. apply andb_true_iff in H as [_ H]. apply IH in H. lia.
Qed.

Lemma match_constant_length cs s v r :
  Forall (fun wv => py (fst wv) <> []) cs ->
  match_constant cs s = Some (v, r) -> (length r < length s)%nat.
Proof.
  induction 1 as [|[w v'] cs Hw Hcs IH]; simpl; [discriminate|].
  destruct (startswith (py w) s) eqn:E; [|assumption].
  intros H. inversion H; subst. apply startswith_length in E.
  rewrite length_skipn. simpl in Hw. destruct (py w); [easy|]. simpl in *. lia.
Qed.

Lemma constants_nonempty : Forall (fun wv => py (fst wv) <> []) constants.
Proof. repeat constructor; discriminate. Qed.

(** A scanning function that returns a value has read at least one
    character. *)
Lemma scan_lengths fuel :
  (forall s v r, scan_once fuel s = POk v r -> (length r < length s)%nat)
  /\ (forall acc s v r, parse_elements fuel acc s = POk v r -> (length r < length s)%nat)
  /\ (forall acc s v r, parse_members fuel acc s = POk v r -> (length r < length s)%nat).
Proof.
  induction fuel as [|f (IHs & IHe & IHm)]; [repeat split; discriminate|].
  repeat split.
  - intros s v r H. cbn [scan_once] in H. destruct s as [|c s]; [discriminate|].
    destruct (c =? 34).
    { destruct (scanstring s) as [[x r']|] eqn:E; [|discriminate].
      inversion H; subst. apply (scanstring_length (length s)) in E; simpl; lia. }
    destruct (c =? 123).
    { pose proof (skip_ws_length s). destruct (skip_ws s) as [|c' r'] eqn:E; [discriminate|].
      destruct (c' =? 125); [inversion H; subst; simpl in *; lia|].
      apply IHm in H. simpl in *. lia. }
    destruct (c =? 91).
    { pose proof (skip_ws_length s). destruct (skip_ws s) as [|c' r'] eqn:E; [discriminate|].
      destruct (c' =? 93); [inversion H; subst; simpl in *; lia|].
      apply IHe in H. simpl in *. lia. }
    destruct (match_constant constants (c :: s)) as [[v' r']|] eqn:E.
    { inversion H; subst. eapply match_constant_length; [apply constants_nonempty|eassumption]. }
    destruct (match_number (c :: s)) as [[v' r']|] eqn:En; [|discriminate].
    inversion H; subst. now apply match_number_length in En.
  - intros acc s v r H. cbn [parse_elements] in H.
    destruct (scan_once f s) as [v' r'| |] eqn:E; try discriminate.
    apply IHs in E. pose proof (skip_ws_length r').
    destruct (skip_ws r') as [|c r''] eqn:Ew; [discriminate|].
    destruct (c =? 93); [inversion H; subst; simpl in *; lia|].
    destruct (c =? 44); [|discriminate].
    apply IHe in H. pose proof (skip_ws_length r''). simpl in *. lia.
  - intros acc s v r H. cbn [parse_members] in H.
    destruct s as [|q s]; [discriminate|]. destruct (q =? 34); [|discriminate].
    destruct (scanstring s) as [[k r1]|] eqn:Ek; [|discriminate].
    apply (scanstring_length (length s)) in Ek; [|lia].
    pose proof (skip_ws_length r1).
    destruct (skip_ws r1) as [|col r2] eqn:E1; [discriminate|].
    destruct (col =? 58); [|discriminate].
    destruct (scan_once f (skip_ws r2)) as [v' r3| |] eqn:Ev; try discriminate.
    apply IHs in Ev. pose proof (skip_ws_length r2). pose proof (skip_ws_length r3).
    destruct (skip_ws r3) as [|c r4] eqn:E3; [discriminate|].
    destruct (c =? 125); [inversion H; subst; simpl in *; lia|].
    destruct (c =? 44); [|discriminate].
    apply IHm in H. pose proof (skip_ws_length r4). simpl in *. lia.
Qed.

(** With a budget of twice the length of the text, the scanning functions
    never run out of it. *)
Lemma scan_fuel fuel :
  (forall s, (2 * length s + 1 <= fuel)%nat -> scan_once fuel s <> PFuel)
  /\ (forall acc s, (2 * length s + 2 <= fuel)%nat -> parse_elements fuel acc s <> PFuel)
  /\ (forall acc s, (2 * length s + 2 <= fuel)%nat -> parse_members fuel acc s <> PFuel).
Proof.
  induction fuel as [|f (IHs & IHe & IHm)]; [repeat split; intros; lia|].
  repeat split.
  - intros s Hf. cbn [scan_once]. destruct s as [|c s]; [discriminate|]. simpl in Hf.
    destruct (c =? 34); [destruct (scanstring s) as [[? ?]|]; discriminate|].
    destruct (c =? 123).
    { pose proof (skip_ws_length s). destruct (skip_ws s) as [|c' r'] eqn:E; [discriminate|].
      destruct (c' =? 125); [discriminate|]. apply IHm. simpl in *. lia. }
    destruct (c =? 91).
    { pose proof (skip_ws_length s). destruct (skip_ws s) as [|c' r'] eqn:E; [discriminate|].
      destruct (c' =? 93); [discriminate|]. apply IHe. simpl in *. lia. }
    destruct (match_constant _ _) as [[? ?]|]; [discriminate|].
    destruct (match_number _) as [[? ?]|]; discriminate.
  - intros acc s Hf. cbn [parse_elements].
    destruct (scan_once f s) as [v r| |] eqn:E; [|discriminate|].
    + apply scan_lengths in E. pose proof (skip_ws_length r).
      destruct (skip_ws r) as [|c r'] eqn:Ew; [discriminate|].
      destruct (c =? 93); [discriminate|]. destruct (c =? 44); [|discriminate].
      apply IHe. pose proof (skip_ws_length r'). simpl in *. lia.
    + exfalso. revert E. apply IHs. lia.
  - intros acc s Hf. cbn [parse_members].
    destruct s as [|q s]; [discriminate|]. simpl in Hf.
    destruct (q =? 34); [|discriminate].
    destruct (scanstring s) as [[k r1]|] eqn:Ek; [|discriminate].
    apply (scanstring_length (length s)) in Ek; [|lia].
    pose proof (skip_ws_length r1).
    destruct (skip_ws r1) as [|col r2] eqn:E1; [discriminate|].
    destruct (col =? 58); [|discriminate].
    pose proof (skip_ws_length r2).
    destruct (scan_once f (skip_ws r2)) as [v r3| |] eqn:Ev; [|discriminate|].
    + apply scan_lengths in Ev. pose proof (skip_ws_length r3).
      destruct (skip_ws r3) as [|c r4] eqn:E3; [discriminate|].
      destruct (c =? 125); [discriminate|]. destruct (c =? 44); [|discriminate].
      apply IHm. pose proof (skip_ws_length r4). simpl in *. lia.
    + exfalso. revert Ev. apply IHs. simpl in *. lia.
Qed.

(** [loads] rejects a line only for its text: the budget it gives the
    scanner is never used up. *)
Theorem loads_budget line :
  scan_once (fuel_for line) (skip_ws line) <> PFuel.
Proof.
  apply scan_fuel. pose proof (skip_ws_length line). unfold fuel_for. lia.
Qed.

End JsonFuel.

(** ** Drill-down *)

Section DrillDown.
Variables (db : database) (name : pystr) (c : Mongo.collection).
Hypothesis Hc : db !! name = Some c.

Lemma find_page query offset limit :
  (0 <= offset)%Z -> (0 < limit)%Z ->
  find_skip_limit query offset limit c = Ok (page offset limit (List.filter query c)).
Proof.
  intros Ho Hl. unfold find_skip_limit, page.
  destruct (Z.ltb_spec offset 0); [lia|].
  destruct (Z.eqb_spec limit 0); [lia|].
  rewrite Z.abs_eq by lia. reflexivity.
Qed.

Lemma page_length offset limit l :
  (0 < limit)%Z -> (Z.of_nat (length (page offset limit l)) <= limit)%Z.
Proof.
  intros Hl. unfold page. rewrite length_firstn. lia.
Qed.

Lemma for_events_length proj events rs :
  for_events proj events = Ok rs -> length rs = length events.
Proof.
  revert rs. induction events as [|e events IH]; intros rs H; simpl in H.
  - now inversion H.
  - destruct (proj e) as [r|]; simpl in H; [|discriminate].
    destruct (for_events proj events) as [rs'|]; simpl in H; [|discriminate].
    inversion H; subst. simpl. f_equal. now apply IH.
Qed.

(** C7. On an existing collection: with no indicator given the call fails
    with the 400 error "Provide one of: dns, command, or file query
    parameter"; a given [dns] is honored whatever [command] and [file] are;
    without [dns] a given [command] is honored whatever [file] is; [file] is
    honored when it is the only one given.  The ignored parameters change
    nothing in the result, so supplying several is not an error.  "Given" is
    the test of the code, [if dns:]: present and not the empty string. *)
Theorem indicator_precedence dns command file limit offset :
  (given dns = false -> given command = false -> given file = false ->
   get_specific_data db name dns command file limit offset
   = Raise (HTTPException 400
              (py "Provide one of: dns, command, or file query parameter")))
  /\ (given dns = true ->
      get_specific_data db name dns command file limit offset
      = bind (find_skip_limit (dns_query (text dns)) offset limit c) (fun cursor =>
        bind (for_events project cursor) (fun results =>
        Ok (specific "dns_calls" (text dns) results))))
  /\ (given dns = false -> given command = true ->
      get_specific_data db name dns command file limit offset
      = bind (find_skip_limit (arg_query "execve" (text command)) offset limit c)
          (fun cursor =>
        bind (for_events project_command cursor) (fun results =>
        Ok (specific "command_calls" (text command) results))))
  /\ (given dns = false -> given command = false -> given file = true ->
      get_specific_data db name dns command file limit offset
      = bind (find_skip_limit (arg_query "openat" (text file)) offset limit c)
          (fun cursor =>
        bind (for_events project cursor) (fun results =>
        Ok (specific "file_access" (text file) results)))).
Proof.
  unfold get_specific_data. rewrite Hc.
  repeat split; intros; repeat match goal with H : given _ = _ |- _ => rewrite H; clear H end;
    reflexivity.
Qed.

(** C8, amended.  For an offset that is not negative and a limit that is
    positive, each of the three queries returns the projections of the page
    of its matches: the matches in stored order without the first [offset]
    ones, cut after [limit]; so at most [limit] records come back.  The
    defaults are limit 50 and offset 0. *)
Theorem pagination dns command file limit offset :
  (0 <= offset)%Z -> (0 < limit)%Z ->
  let response := get_specific_data db name dns command file limit offset in
  (given dns = true ->
   response
   = bind (for_events project
             (page offset limit (List.filter (dns_query (text dns)) c)))
       (fun results => Ok (specific "dns_calls" (text dns) results)))
  /\ (given dns = false -> given command = true ->
      response
      = bind (for_events project_command
                (page offset limit
                   (List.filter (arg_query "execve" (text command)) c)))
          (fun results => Ok (specific "command_calls" (text command) results)))
  /\ (given dns = false -> given command = false -> given file = true ->
      response
      = bind (for_events project
                (page offset limit (List.filter (arg_query "openat" (text file)) c)))
          (fun results => Ok (specific "file_access" (text file) results)))
  /\ (Z.of_nat (length (records response)) <= limit)%Z
  /\ (default_limit, default_offset) = (50, 0)%Z.
Proof.
  intros Ho Hl response. subst response.
  unfold get_specific_data. rewrite Hc.
  rewrite !find_page by assumption. simpl bind.
  split; [|split; [|split; [|split; [|reflexivity]]]]; intros; repeat match goal with H : given _ = _ |- _ => rewrite H; clear H end;
    try reflexivity.
  assert (Hrec : forall proj kind ind q,
             (Z.of_nat (length (records
                (bind (for_events proj (page offset limit (List.filter q c)))
                   (fun results => Ok (specific kind ind results))))) <= limit)%Z).
  { intros proj kind ind q.
    destruct (for_events proj _) as [rs|] eqn:E; simpl; [|lia].
    apply for_events_length in E. rewrite E. now apply page_length. }
  destruct (given dns); [apply Hrec|].
  destruct (given command); [apply Hrec|].
  destruct (given file); [apply Hrec|simpl; lia].
Qed.

End DrillDown.

(** Witness of C7: [dns] and [command] are both given, the DNS query is
    answered. *)
Lemma indicator_precedence_witness :
  get_specific_data (ingested dns_trace) trace_name
    (Some (py "example.com")) (Some (py "/bin/ls")) None 50 0
  = get_specific_data (ingested dns_trace) trace_name
      (Some (py "example.com")) None None 50 0.
Proof.
  pose proof (indicator_precedence (ingested dns_trace) trace_name
                (the_collection (ingested dns_trace)) eq_refl
                (Some (py "example.com")) (Some (py "/bin/ls")) None 50 0)
    as (_ & H1 & _).
  pose proof (indicator_precedence (ingested dns_trace) trace_name
                (the_collection (ingested dns_trace)) eq_refl
                (Some (py "example.com")) None None 50 0)
    as (_ & H2 & _).
  rewrite (H1 eq_refl), (H2 eq_refl). reflexivity.
Defined.

(** Witness of C8: of the five executions of [/bin/ls], limit 2 and offset 1
    return the second and the third, in stored order. *)
Lemma pagination_witness :
  process_ids
    (get_specific_data (ingested ls_trace) trace_name
       None (Some (py "/bin/ls")) None 2 1)
  = [VInt 3; VInt 4].
Proof.
  pose proof (pagination (ingested ls_trace) trace_name
                (the_collection (ingested ls_trace)) eq_refl
                None (Some (py "/bin/ls")) None 2 1 ltac:(lia) ltac:(lia))
    as (_ & H & _).
  cbv zeta in H. rewrite (H eq_refl eq_refl). vm_compute. reflexivity.
Defined.

(** Counterexample of C8 as stated: with limit 0 the call returns every
    match after the offset, four records, not at most zero. *)
Lemma limit_zero_returns_all :
  process_ids
    (get_specific_data (ingested ls_trace) trace_name
       None (Some (py "/bin/ls")) None 0 1)
  = [VInt 3; VInt 4; VInt 6; VInt 7]
  /\ ~ (Z.of_nat (length (records
          (get_specific_data (ingested ls_trace) trace_name
             None (Some (py "/bin/ls")) None 0 1))) <= 0)%Z.
Proof.
  split; [vm_compute; reflexivity|].
  vm_compute. intros H. apply H. reflexivity.
Qed.

(** C3.  The event of the DNS request has [parentProcessId] 7, and the
    record of the DNS query has no parent process id, while the record of
    the command query has it. *)
Theorem dns_record_lacks_parent :
  List.map (get "parentProcessId") (the_collection (ingested dns_trace))
  = [VInt 7; VInt 7]
  /\ List.map (record_field "parent_process_id")
       (records (get_specific_data (ingested dns_trace) trace_name
                   (Some (py "example.com")) None None 50 0))
     = [None]
  /\ List.map (record_field "parent_process_id")
       (records (get_specific_data (ingested dns_trace) trace_name
                   None (Some (py "/bin/ls")) None 50 0))
     = [Some (VInt 7)].
Proof. vm_compute. repeat split. Qed.

(** ** Statistics *)

(** C9.  On an existing collection without events [get_stats] returns a
    count of zero, five empty maps and no risk flag. *)
Theorem stats_of_empty_collection (db : database) (name : pystr) :
  db !! name = Some [] ->
  get_stats db name
  = Ok {| collection := name; total_events := 0;
          syscall_profile := []; file_access := []; executed_commands := [];
          ips := []; dns_records := []; risk_flags := [] |}.
Proof.
  intros H. unfold get_stats. rewrite H. reflexivity.
Qed.

Lemma stats_of_empty_collection_witness :
  get_stats (ingested "") trace_name
  = Ok {| collection := trace_name; total_events := 0;
          syscall_profile := []; file_access := []; executed_commands := [];
          ips := []; dns_records := []; risk_flags := [] |}.
Proof.
  apply (stats_of_empty_collection (ingested "") trace_name).
  vm_compute. reflexivity.
Defined.

Section RiskFlags.

Lemma counts_store_keys k n d :
  Forall (fun x => hashable x = true) (List.map fst d) -> hashable k = true ->
  Forall (fun x => hashable x = true) (List.map fst (counts_store k n d)).
Proof.
  intros Hd Hk. induction d as [|[k' n'] d IH]; simpl.
  - constructor; [assumption|constructor].
  - inversion Hd; subst. destruct (key_eqb k k'); simpl; constructor; auto.
Qed.

Lemma dict_of_items_hashable items : forall d d',
  Forall (fun x => hashable x = true) (List.map fst d) ->
  dict_of_items items d = Ok d' ->
  Forall (fun x => hashable x = true) (List.map fst d').
Proof.
  induction items as [|[k n] items IH]; intros d d' Hd H; simpl in H.
  - now inversion H; subst.
  - unfold counts_set in H. destruct (hashable k) eqn:Hk; simpl in H; [|discriminate].
    eapply IH; [|exact H]. now apply counts_store_keys.
Qed.

Lemma any_in_key_has needles k b :
  hashable k = true -> any_in needles k = Ok b -> b = key_has needles k.
Proof.
  intros Hk. revert b. induction needles as [|s needles IH]; intros b H; simpl in H.
  - inversion H. now destruct k.
  - destruct k; simpl in *; try discriminate.
    destruct (contains s s0); simpl in *; [now inversion H | now apply IH].
Qed.

Lemma hits_key_has needles keys l :
  Forall (fun x => hashable x = true) keys ->
  hits needles keys = Ok l ->
  truthy (VList l) = existsb (key_has needles) keys.
Proof.
  intros Hk. revert l. induction Hk as [|k keys Hh Hk IH]; intros l H; simpl in H.
  - now inversion H.
  - destruct (any_in needles k) as [b|] eqn:E; simpl in H; [|discriminate].
    destruct (hits needles keys) as [l'|]; simpl in H; [|discriminate].
    apply any_in_key_has in E; [|assumption]. subst b.
    inversion H; subst. simpl. destruct (key_has needles k); simpl; [reflexivity|].
    now apply IH.
Qed.

Lemma any_key_key_has needles keys b :
  Forall (fun x => hashable x = true) keys ->
  any_key needles keys = Ok b ->
  b = existsb (key_has needles) keys.
Proof.
  intros Hk. revert b. induction Hk as [|k keys Hh Hk IH]; intros b H; simpl in H.
  - now inversion H.
  - destruct (any_in needles k) as [b1|] eqn:E; simpl in H; [|discriminate].
    apply any_in_key_has in E; [|assumption]. subst b1. simpl.
    destruct (key_has needles k); simpl; [now inversion H | now apply IH].
Qed.

(** C5.  Whenever [get_stats] returns a report, its risk flags are the tags
    whose predicates hold on the maps of the report, in the order
    sensitive_file_access, shell_spawned, network_activity, procfs_access. *)
Theorem risk_flags_exact (db : database) (name : pystr) (r : report) :
  get_stats db name = Ok r ->
  risk_flags r = expected_flags (file_access r) (executed_commands r) (ips r).
Proof.
  unfold get_stats. destruct (db !! name) as [c|]; [|discriminate].
  destruct (dict_of_items (syscall_pipeline c) []) as [sys|]; simpl; [|discriminate].
  destruct (dict_of_items (arg_pipeline "openat" "pathname" c) []) as [files|] eqn:Ef;
    simpl; [|discriminate].
  destruct (hits SENSITIVE_PATHS (List.map fst files)) as [sh|] eqn:Eh;
    simpl; [|discriminate].
  destruct (dict_of_items (arg_pipeline "execve" "pathname" c) []) as [cmds|] eqn:Ec;
    simpl; [|discriminate].
  destruct (any_key SHELL_BINARIES (List.map fst cmds)) as [shell|] eqn:Es;
    simpl; [|discriminate].
  destruct (ip_loop (arg_pipeline "connect" "addr" c) []) as [ipu|]; simpl; [|discriminate].
  destruct (dict_of_items (dns_pipeline c) []) as [dns|]; simpl; [|discriminate].
  destruct (any_key [py "/proc"] (List.map fst files)) as [procfs|] eqn:Ep;
    simpl; [|discriminate].
  intros H. inversion H; subst; clear H. simpl.
  apply dict_of_items_hashable in Ef; [|constructor].
  apply dict_of_items_hashable in Ec; [|constructor].
  apply hits_key_has in Eh; [|assumption].
  apply any_key_key_has in Es; [|assumption].
  apply any_key_key_has in Ep; [|assumption].
  unfold expected_flags, some_key_has. fold SENSITIVE_PATHS SHELL_BINARIES.
  change (match sh with [] => false | _ :: _ => true end) with (truthy (VList sh)).
  rewrite Eh, <- Es, <- Ep.
  destruct (existsb _ _), shell, ipu, procfs; reflexivity.
Qed.

End RiskFlags.

(** Witness of C5: a trace that raises the four flags. *)
Lemma risk_flags_exact_witness :
  exists r, get_stats (ingested risky_trace) trace_name = Ok r
    /\ risk_flags r = [py "sensitive_file_access"; py "shell_spawned";
                       py "network_activity"; py "procfs_access"].
Proof.
  destruct (get_stats (ingested risky_trace) trace_name) as [r|] eqn:E;
    [|vm_compute in E; discriminate].
  exists r. split; [reflexivity|].
  rewrite (risk_flags_exact _ _ _ E).
  vm_compute in E. inversion E; subst. vm_compute. reflexivity.
Defined.

(** ** The key of an address *)

Section IpUsage.




End IpUsage.



(** ** Every pair of an event is counted *)

Section Counting.

Lemma pystr_eqb_eq a b : pystr_eqb a b = true <-> a = b.
Proof.
  revert b. induction a as [|x a IH]; intros [|y b]; simpl; split; intros H;
    try reflexivity; try discriminate.
  - apply andb_true_iff in H as [Hx Hab]. apply N.eqb_eq in Hx.
    apply IH in Hab. congruence.
  - inversion H; subst. rewrite N.eqb_refl. simpl. now apply IH.
Qed.

Lemma pystr_eqb_refl a : pystr_eqb a a = true.
Proof. now apply pystr_eqb_eq. Qed.

Lemma pystr_eqb_sym a b : pystr_eqb a b = pystr_eqb b a.
Proof.
  destruct (pystr_eqb a b) eqn:E.
  - apply pystr_eqb_eq in E. subst. now rewrite pystr_eqb_refl.
  - destruct (pystr_eqb b a) eqn:E'; [|reflexivity].
    apply pystr_eqb_eq in E'. subst. now rewrite pystr_eqb_refl in E.
Qed.

Lemma dict_lookup_set k v d : dict_lookup k (dict_set k v d) = Some v.
Proof.
  induction d as [|[k' v'] d IH]; simpl.
  - now rewrite pystr_eqb_refl.
  - destruct (pystr_eqb k k') eqn:E; simpl; now rewrite E.
Qed.

(** *** The documents that reach [$group] *)

Lemma group_keys_cons ev arg e c :
  group_keys ev arg (e :: c) = group_keys ev arg [e] ++ group_keys ev arg c.
Proof.
  unfold group_keys, stage_match, stage_unwind. simpl List.filter.
  destruct (match_field "eventName" (VStr (py ev)) e); simpl flat_map.
  - rewrite app_nil_r, List.filter_app, List.map_app. reflexivity.
  - reflexivity.
Qed.

Lemma unwound_pairs arg d l :
  forallb (pair_ok arg) l = true ->
  List.map (expr2 "args" "value")
    (List.filter (match_path2 "args" "name" (VStr (py arg)))
       (List.map (fun x => set_field "args" x (VDict d)) l))
  = List.map VStr (flat_map (pair_value arg) l).
Proof.
  induction l as [|a l IH]; intros H; [reflexivity|].
  simpl in H. apply andb_true_iff in H as [Ha Hl].
  simpl List.map. simpl List.filter. simpl flat_map. rewrite List.map_app, <- IH by assumption.
  clear IH Hl.
  unfold match_path2 at 1, field, set_field. rewrite dict_lookup_set.
  destruct a as [| | | | |? |pd|]; try discriminate. simpl in Ha.
  unfold match_field, field, pair_value.
  destruct (dict_lookup (py "name") pd) as [[| | | |n| | |]|]; try discriminate.
  unfold eq_or_elem. simpl bson_eq. rewrite orb_false_r.
  destruct (pystr_eqb n (py arg)).
  - destruct (dict_lookup (py "value") pd) as [[| | | |x| | |]|] eqn:Ev; try discriminate.
    simpl. f_equal. unfold expr2, field. rewrite dict_lookup_set. simpl.
    now rewrite Ev.
  - now destruct (dict_lookup (py "value") pd) as [[| | | |x| | |]|].
Qed.

Lemma group_keys_event ev arg e :
  well_shaped arg e = true ->
  group_keys ev arg [e] = List.map VStr (event_values ev arg e).
Proof.
  intros H. destruct e as [| | | | | |d|]; try discriminate. simpl in H.
  unfold group_keys, event_values, stage_match, stage_unwind, field.
  simpl List.filter. unfold match_field at 1, field.
  destruct (dict_lookup (py "eventName") d) as [[| | | |n| | |]|]; try discriminate.
  destruct (dict_lookup (py "args") d) as [[| | | | |l| |]|] eqn:Ea; try discriminate.
  unfold eq_or_elem. simpl bson_eq. rewrite orb_false_r.
  destruct (pystr_eqb n (py ev)); [|reflexivity].
  simpl flat_map. rewrite app_nil_r. unfold unwind1, field. rewrite Ea.
  now apply unwound_pairs.
Qed.

Lemma group_keys_values ev arg c :
  Forall (fun e => well_shaped arg e = true) c ->
  group_keys ev arg c = List.map VStr (flat_map (event_values ev arg) c).
Proof.
  induction 1 as [|e c He Hc IH]; [reflexivity|].
  rewrite group_keys_cons, IH, group_keys_event by assumption.
  simpl flat_map. now rewrite List.map_app.
Qed.

(** *** [$group] on string keys *)

Lemma group_add_keys k g x :
  In x (List.map fst (group_add k g)) -> In x (List.map fst g) \/ x = k.
Proof.
  induction g as [|[k' n] g IH]; simpl.
  - intros [H|[]]; auto.
  - destruct (bson_eq k k'); simpl; intros [H|H]; auto.
    destruct (IH H); auto.
Qed.

Lemma group_add_str k g : str_keys g -> str_keys (group_add (VStr k) g).
Proof.
  unfold str_keys. induction g as [|[k' n] g IH]; simpl; intros H.
  - repeat constructor.
  - inversion H; subst. destruct k' as [| | | |s| | |]; try discriminate.
    simpl bson_eq. destruct (pystr_eqb k s); simpl; constructor; auto.
Qed.

Lemma group_add_nodup k g :
  str_keys g -> List.NoDup (List.map fst g) -> List.NoDup (List.map fst (group_add (VStr k) g)).
Proof.
  unfold str_keys. induction g as [|[k' n] g IH]; simpl; intros Hs Hn.
  - apply List.NoDup_cons; [apply in_nil | apply List.NoDup_nil].
  - inversion Hs; subst. inversion Hn; subst.
    destruct k' as [| | | |s| | |]; try discriminate. simpl bson_eq.
    destruct (pystr_eqb k s) eqn:E; simpl; [now constructor|].
    constructor; [|now apply IH].
    intros Hin. apply group_add_keys in Hin as [Hin|Heq]; [contradiction|].
    inversion Heq; subst. now rewrite pystr_eqb_refl in E.
Qed.

Lemma group_add_get p k g :
  str_keys g ->
  counts_get (VStr p) (group_add (VStr k) g)
  = if pystr_eqb p k
    then Some (match counts_get (VStr p) g with Some n => n | None => 0 end + 1)%Z
    else counts_get (VStr p) g.
Proof.
  unfold str_keys, counts_get. induction g as [|[k' n] g IH]; simpl; intros Hs.
  - destruct (pystr_eqb p k); reflexivity.
  - inversion Hs; subst. destruct k' as [| | | |s| | |]; try discriminate.
    simpl bson_eq. destruct (pystr_eqb k s) eqn:Eks; simpl.
    + apply pystr_eqb_eq in Eks. subst s. destruct (pystr_eqb p k); reflexivity.
    + destruct (pystr_eqb p s) eqn:Eps.
      * apply pystr_eqb_eq in Eps. subst s. rewrite (pystr_eqb_sym p k), Eks. reflexivity.
      * now apply IH.
Qed.

Lemma stage_group_keys key docs :
  stage_group key docs
  = fold_left (fun g k => group_add k g) (List.map key docs) [].
Proof.
  unfold stage_group. generalize (@nil (value * Z)).
  induction docs as [|d docs IH]; intros g; simpl; [reflexivity|apply IH].
Qed.

Lemma group_fold ks : forall g (f : pystr -> Z),
  str_keys g -> List.NoDup (List.map fst g) ->
  (forall p, (0 <= f p)%Z) ->
  (forall p, counts_get (VStr p) g = count_of (f p)) ->
  let g' := fold_left (fun g k => group_add k g) (List.map VStr ks) g in
  str_keys g' /\ List.NoDup (List.map fst g')
  /\ forall p, counts_get (VStr p) g'
               = count_of (f p + Z.of_nat (length (List.filter (pystr_eqb p) ks))).
Proof.
  induction ks as [|k ks IH]; intros g f Hs Hn Hf Hg; simpl.
  - repeat split; auto. intros p. now rewrite Z.add_0_r.
  - destruct (IH (group_add (VStr k) g)
                (fun p => (f p + if pystr_eqb p k then 1 else 0)%Z)) as (Hs' & Hn' & Hg').
    + now apply group_add_str.
    + now apply group_add_nodup.
    + intros p. specialize (Hf p). destruct (pystr_eqb p k); lia.
    + intros p. rewrite group_add_get by assumption. rewrite Hg.
      specialize (Hf p). unfold count_of.
      destruct (pystr_eqb p k).
      * destruct (Z.eqb_spec (f p) 0), (Z.eqb_spec (f p + 1) 0); try lia; f_equal; lia.
      * now rewrite Z.add_0_r.
    + repeat split; auto. intros p. rewrite Hg'. f_equal.
      destruct (pystr_eqb p k); simpl length; lia.
Qed.

(** *** [$sort] and the dict comprehension keep the counts *)

Lemma sort_insert_perm x l : Permutation (sort_insert x l) (x :: l).
Proof.
  induction l as [|y l IH]; simpl; [reflexivity|].
  destruct (snd y <=? snd x)%Z; [reflexivity|].
  rewrite IH. apply perm_swap.
Qed.

Lemma stage_sort_perm g : Permutation (stage_sort g) g.
Proof.
  induction g as [|x g IH]; simpl; [reflexivity|].
  rewrite sort_insert_perm. now constructor.
Qed.

Lemma counts_get_In g p n :
  str_keys g -> List.NoDup (List.map fst g) ->
  counts_get (VStr p) g = Some n <-> In (VStr p, n) g.
Proof.
  unfold str_keys, counts_get. induction g as [|[k m] g IH]; simpl; intros Hs Hn.
  - split; [discriminate|intros []].
  - inversion Hs; subst. inversion Hn; subst.
    destruct k as [| | | |s| | |]; try discriminate. simpl.
    destruct (pystr_eqb p s) eqn:E.
    + apply pystr_eqb_eq in E. subst s. simpl. split.
      * intros H. inversion H. now left.
      * intros [H|H]; [now inversion H|].
        exfalso. apply H3. change (VStr p) with (fst (VStr p, n)). now apply in_map.
    + rewrite IH by assumption. split; [now right|].
      intros [H|H]; [|assumption]. inversion H; subst. now rewrite pystr_eqb_refl in E.
Qed.

Lemma counts_get_perm g g' p :
  Permutation g g' -> str_keys g -> List.NoDup (List.map fst g) ->
  counts_get (VStr p) g' = counts_get (VStr p) g.
Proof.
  intros Hp Hs Hn.
  assert (Hs' : str_keys g').
  { unfold str_keys in *. eapply Permutation_Forall; [|exact Hs]. now apply Permutation_map. }
  assert (Hn' : List.NoDup (List.map fst g')).
  { eapply Permutation_NoDup; [|exact Hn]. now apply Permutation_map. }
  destruct (counts_get (VStr p) g) as [n|] eqn:E.
  - apply counts_get_In; auto. apply counts_get_In in E; auto.
    eapply Permutation_in; eauto.
  - destruct (counts_get (VStr p) g') as [m|] eqn:E'; [|reflexivity].
    apply counts_get_In in E'; auto.
    assert (In (VStr p, m) g) by (eapply Permutation_in; [symmetry|]; eauto).
    apply counts_get_In in H; auto. congruence.
Qed.

Lemma counts_store_fresh k n d :
  str_keys d -> ~ In (VStr k) (List.map fst d) ->
  counts_store (VStr k) n d = d ++ [(VStr k, n)].
Proof.
  unfold str_keys. induction d as [|[k' m] d IH]; simpl; intros Hs Hn; [reflexivity|].
  inversion Hs; subst. destruct k' as [| | | |s| | |]; try discriminate. simpl.
  destruct (pystr_eqb k s) eqn:E.
  - apply pystr_eqb_eq in E. subst. exfalso. apply Hn. now left.
  - f_equal. apply IH; auto.
Qed.

Lemma dict_of_items_same items : forall d,
  str_keys (d ++ items) -> List.NoDup (List.map fst (d ++ items)) ->
  dict_of_items items d = Ok (d ++ items).
Proof.
  induction items as [|[k n] items IH]; intros d Hs Hn; simpl.
  - now rewrite app_nil_r.
  - assert (Hk : is_str k = true).
    { unfold str_keys in Hs. rewrite List.map_app, Forall_app in Hs.
      destruct Hs as [_ Hs]. now inversion Hs. }
    destruct k as [| | | |s| | |]; try discriminate.
    unfold counts_set. simpl hashable. cbv iota. simpl bind.
    rewrite counts_store_fresh.
    + rewrite IH; rewrite <- app_assoc; auto.
    + unfold str_keys in *. rewrite List.map_app, Forall_app in Hs. tauto.
    + rewrite List.map_app in Hn. simpl in Hn. apply NoDup_remove_2 in Hn.
      intros Hin. apply Hn. apply in_or_app. now left.
Qed.

Lemma arg_pipeline_counts ev arg c :
  Forall (fun e => well_shaped arg e = true) c ->
  dict_of_items (arg_pipeline ev arg c) [] = Ok (arg_pipeline ev arg c)
  /\ forall p, counts_get (VStr p) (arg_pipeline ev arg c)
               = count_of (occurrences ev arg p c).
Proof.
  intros Hc.
  assert (Hg : arg_pipeline ev arg c
               = stage_sort (fold_left (fun g k => group_add k g)
                               (List.map VStr (flat_map (event_values ev arg) c)) [])).
  { unfold arg_pipeline. rewrite stage_group_keys.
    change (List.map _ (stage_match _ _)) with (group_keys ev arg c).
    now rewrite group_keys_values. }
  destruct (group_fold (flat_map (event_values ev arg) c) [] (fun _ => 0%Z))
    as (Hs & Hn & Hcount); try (now constructor); try reflexivity.
  cbv zeta in Hs, Hn, Hcount.
  set (g := fold_left _ _ _) in *.
  pose proof (stage_sort_perm g) as Hp.
  assert (Hs' : str_keys (stage_sort g)).
  { unfold str_keys in *. eapply Permutation_Forall; [|exact Hs].
    apply Permutation_map. now symmetry. }
  assert (Hn' : List.NoDup (List.map fst (stage_sort g))).
  { eapply Permutation_NoDup; [|exact Hn]. apply Permutation_map. now symmetry. }
  rewrite Hg. split.
  - now apply (dict_of_items_same (stage_sort g) []).
  - intros p. rewrite (counts_get_perm g (stage_sort g)) by (auto; now symmetry).
    apply Hcount.
Qed.

(** C4, amended.  On a collection of events of the usual shape, the count
    of a path in [file_access] is the number of pairs named [pathname] with
    that value over all file-open events, and likewise in
    [executed_commands] over the process-exec events: every matching pair
    of an event counts, not only the first one. *)
Theorem every_pair_counts (db : database) (name : pystr) (c : list value)
    (r : report) :
  db !! name = Some c ->
  Forall (fun e => well_shaped "pathname" e = true) c ->
  get_stats db name = Ok r ->
  forall p,
    counts_get (VStr p) (file_access r)
    = count_of (occurrences "openat" "pathname" p c)
    /\ counts_get (VStr p) (executed_commands r)
       = count_of (occurrences "execve" "pathname" p c).
Proof.
  intros Hdb Hc. unfold get_stats. rewrite Hdb.
  destruct (arg_pipeline_counts "openat" "pathname" c Hc) as (Hf & Hfc).
  destruct (arg_pipeline_counts "execve" "pathname" c Hc) as (He & Hec).
  rewrite Hf, He.
  destruct (dict_of_items (syscall_pipeline c) []) as [sys|]; simpl; [|discriminate].
  destruct (hits _ _) as [sh|]; simpl; [|discriminate].
  destruct (any_key SHELL_BINARIES _) as [shell|]; simpl; [|discriminate].
  destruct (ip_loop _ _) as [ipu|]; simpl; [|discriminate].
  destruct (dict_of_items (dns_pipeline c) []) as [dns|]; simpl; [|discriminate].
  destruct (any_key _ _) as [procfs|]; simpl; [|discriminate].
  intros H p. inversion H; subst; clear H. simpl. split; auto.
Qed.

End Counting.

(** Witness of C4: the event with two [pathname] pairs of the value
    [/tmp/x] counts twice. *)
Lemma every_pair_counts_witness :
  exists r, get_stats (ingested twice_trace) trace_name = Ok r
    /\ counts_get (VStr (py "/tmp/x")) (file_access r) = Some 2%Z.
Proof.
  destruct (get_stats (ingested twice_trace) trace_name) as [r|] eqn:E;
    [|vm_compute in E; discriminate].
  exists r. split; [reflexivity|].
  destruct (every_pair_counts (ingested twice_trace) trace_name
              (the_collection (ingested twice_trace)) r eq_refl
              ltac:(vm_compute; repeat constructor) E (py "/tmp/x")) as [H _].
  rewrite H. vm_compute. reflexivity.
Defined.

(** Counterexample of C4 as stated: the collection has one event, and the
    count of [/tmp/x] in [file_access] is 2: the event contributes two
    occurrences to one group, the second pair as well as the first. *)
Lemma second_pair_is_counted :
  exists r, get_stats (ingested twice_trace) trace_name = Ok r
    /\ total_events r = 1%Z
    /\ file_access r = [(VStr (py "/tmp/x"), 2%Z)]
    /\ ~ (forall n, counts_get (VStr (py "/tmp/x")) (file_access r) = Some n -> (n <= 1)%Z).
Proof.
  eexists. split; [vm_compute; reflexivity|]. simpl.
  repeat split. intros H. specialize (H 2%Z eq_refl). lia.
Qed.

(** ** Ingestion *)

Section Utf8.

Lemma utf8_decode_cons b0 r0 :
  utf8_decode (b0 :: r0)
  = if b0 <? 128 then option_map (cons b0) (utf8_decode r0)
    else if in_range 194 223 b0 then
      match r0 with
      | b1 :: r1 =>
          if is_cont b1
          then option_map
                 (cons (N.lor (N.shiftl (N.land b0 31) 6) (cont_bits b1)))
                 (utf8_decode r1)
          else None
      | _ => None
      end
    else if in_range 224 239 b0 then
      match r0 with
      | b1 :: b2 :: r2 =>
          if second_ok b0 b1 && is_cont b2
          then option_map
                 (cons (N.lor (N.shiftl (N.land b0 15) 12)
                          (N.lor (N.shiftl (cont_bits b1) 6) (cont_bits b2))))
                 (utf8_decode r2)
          else None
      | _ => None
      end
    else if in_range 240 244 b0 then
      match r0 with
      | b1 :: b2 :: b3 :: r3 =>
          if second_ok b0 b1 && is_cont b2 && is_cont b3
          then option_map
                 (cons (N.lor (N.shiftl (N.land b0 7) 18)
                          (N.lor (N.shiftl (cont_bits b1) 12)
                             (N.lor (N.shiftl (cont_bits b2) 6) (cont_bits b3)))))
                 (utf8_decode r3)
          else None
      | _ => None
      end
    else None.
Proof. reflexivity. Qed.

Lemma option_map_cons_nil (x : N) (o : option pystr) :
  option_map (cons x) o <> Some [].
Proof. destruct o; discriminate. Qed.

Lemma option_map_cons_one (x cp : N) (o : option pystr) :
  option_map (cons x) o = Some [cp] -> o = Some [].
Proof. destruct o as [l|]; [|discriminate]. simpl. intros H. inversion H. reflexivity. Qed.

Lemma utf8_decode_nil bs : utf8_decode bs = Some [] -> bs = [].
Proof.
  destruct bs as [|b0 r0]; [reflexivity|]. rewrite utf8_decode_cons. intros H. exfalso.
  repeat match type of H with
         | (if ?c then _ else _) = _ => destruct c
         | match ?l with [] => _ | _ :: _ => _ end = _ => destruct l
         | option_map _ _ = _ => now apply option_map_cons_nil in H
         | None = _ => discriminate
         end.
Qed.

(** A lead byte is no continuation byte. *)
Lemma lead_not_cont b : 192 <= b -> is_cont b = false.
Proof.
  intros H. unfold is_cont. apply andb_false_iff. right. apply N.leb_gt. lia.
Qed.

Lemma lead_not_second b0 b : 192 <= b -> second_ok b0 b = false.
Proof.
  intros H. unfold second_ok, in_range, is_cont.
  repeat match goal with |- context [if ?c then _ else _] => destruct c end;
    apply andb_false_iff; right; apply N.leb_gt; lia.
Qed.

(** Bytes that end with the first bytes of a character do not decode. *)
Lemma decode_truncated b0 t :
  192 <= b0 -> utf8_decode (b0 :: t) = None ->
  forall n pre, (length pre < n)%nat -> utf8_decode (pre ++ b0 :: t) = None.
Proof.
  intros Hb Ht.
  pose proof (lead_not_cont b0 Hb) as Hc.
  pose proof (fun x => lead_not_second x b0 Hb) as Hs.
  induction n as [|n IH]; intros pre Hn; [lia|].
  destruct pre as [|p0 pre]; [exact Ht|].
  cbn [app]. rewrite utf8_decode_cons. simpl in Hn.
  destruct (p0 <? 128); [rewrite IH by lia; reflexivity|].
  destruct (in_range 194 223 p0).
  { destruct pre as [|p1 pre]; cbn [app]; [now rewrite Hc|].
    simpl in Hn. destruct (is_cont p1); [|reflexivity].
    rewrite IH by lia. reflexivity. }
  destruct (in_range 224 239 p0).
  { destruct pre as [|p1 [|p2 pre]]; cbn [app].
    - destruct t; [reflexivity|]. now rewrite Hs.
    - now rewrite Hc, andb_false_r.
    - simpl in Hn. destruct (second_ok p0 p1 && is_cont p2); [|reflexivity].
      rewrite IH by lia. reflexivity. }
  destruct (in_range 240 244 p0); [|reflexivity].
  destruct pre as [|p1 [|p2 [|p3 pre]]]; cbn [app].
  - destruct t as [|? [|? ?]]; try reflexivity. now rewrite Hs.
  - destruct t; [reflexivity|]. now rewrite Hc, andb_false_r.
  - now rewrite Hc, andb_false_r.
  - simpl in Hn. destruct (second_ok p0 p1 && is_cont p2 && is_cont p3); [|reflexivity].
    rewrite IH by lia. reflexivity.
Qed.

Lemma in_range_lead lo hi b : 194 <= lo -> in_range lo hi b = true -> 192 <= b.
Proof.
  unfold in_range. intros Hlo H. apply andb_true_iff in H as [H _].
  apply N.leb_le in H. lia.
Qed.

(** The first bytes of a character of several bytes start with a lead
    byte and do not decode. *)
Lemma char_prefix c1 c2 cp :
  c1 <> [] -> c2 <> [] -> utf8_decode (c1 ++ c2) = Some [cp] ->
  exists b0 t, c1 = b0 :: t /\ 192 <= b0 /\ utf8_decode (b0 :: t) = None.
Proof.
  intros H1 H2 H. destruct c1 as [|b0 t]; [easy|]. exists b0, t.
  split; [reflexivity|]. cbn [app] in H. rewrite utf8_decode_cons in H.
  rewrite utf8_decode_cons.
  assert (Hne : forall l, utf8_decode (l ++ c2) <> Some []).
  { intros l E. apply utf8_decode_nil in E. apply app_eq_nil in E. tauto. }
  destruct (b0 <? 128).
  { apply option_map_cons_one in H. now apply Hne in H. }
  destruct (in_range 194 223 b0) eqn:E2.
  { split; [now apply (in_range_lead 194 223)|].
    destruct t as [|x t]; [reflexivity|]. cbn [app] in H.
    destruct (is_cont x); [|discriminate].
    apply option_map_cons_one in H. now apply Hne in H. }
  destruct (in_range 224 239 b0) eqn:E3.
  { split; [now apply (in_range_lead 224 239)|].
    destruct t as [|x [|y t]]; try reflexivity. cbn [app] in H.
    destruct (second_ok b0 x && is_cont y); [|discriminate].
    apply option_map_cons_one in H. now apply Hne in H. }
  destruct (in_range 240 244 b0) eqn:E4; [|discriminate].
  split; [now apply (in_range_lead 240 244)|].
  destruct t as [|x [|y [|z t]]]; try reflexivity. cbn [app] in H.
  destruct (second_ok b0 x && is_cont y && is_cont z); [|discriminate].
  apply option_map_cons_one in H. now apply Hne in H.
Qed.

Lemma straddle_decode_fails (pre c1 c2 : list byte) :
  c1 <> [] -> c2 <> [] -> one_char (c1 ++ c2) ->
  decode (pre ++ c1) = Raise UnicodeDecodeError.
Proof.
  intros H1 H2 [cp H]. unfold decode. rewrite List.map_app in *.
  destruct (char_prefix (List.map Byte.to_N c1) (List.map Byte.to_N c2) cp)
    as (b0 & t & E & Hb & Hd); auto.
  - now destruct c1.
  - now destruct c2.
  - rewrite E. now rewrite (decode_truncated b0 t Hb Hd (S (length (List.map Byte.to_N pre)))) by lia.
Qed.

Lemma one_char_length (c1 c2 : list byte) :
  c2 <> [] -> one_char (c1 ++ c2) -> (length c1 <= 3)%nat.
Proof.
  intros H2 [cp H]. rewrite List.map_app in H.
  assert (Hne : forall l, utf8_decode (l ++ List.map Byte.to_N c2) <> Some []).
  { intros l E. apply utf8_decode_nil in E. apply app_eq_nil in E.
    destruct E as [_ E]. now destruct c2. }
  destruct (List.map Byte.to_N c1) as [|b0 [|x [|y [|z t]]]] eqn:E1;
    try (apply (f_equal (@length N)) in E1; rewrite length_map in E1; simpl in E1; lia).
  exfalso. cbn [app] in H. rewrite utf8_decode_cons in H.
  repeat match type of H with
         | (if ?c then _ else _) = _ => destruct c
         | None = _ => discriminate
         end; apply option_map_cons_one in H.
  - now apply (Hne (x :: y :: z :: t)).
  - now apply (Hne (y :: z :: t)).
  - now apply (Hne (z :: t)).
  - now apply (Hne t).
Qed.

End Utf8.

Section ReadLoop.

(** The loop ends for every stream: the budget of one round per byte is
    never used up. *)
Lemma read_loop_total size : forall fuel stream st,
  (length stream < fuel)%nat -> exists r, read_loop fuel size stream st = Some r.
Proof.
  induction fuel as [|fuel IH]; intros stream st Hf; [lia|].
  cbn [read_loop]. unfold read.
  destruct (firstn (Z.to_nat size) stream) as [|b chunk] eqn:E; [eauto|].
  destruct (decode (b :: chunk)) as [text|e]; [|eauto].
  destruct (for_lines (splitlines text) st) as [st' [[]|e]]; [|eauto].
  apply IH. rewrite length_skipn.
  destruct (Z.to_nat size); [discriminate|]. destruct stream; [discriminate|].
  simpl in *. lia.
Qed.

Theorem upload_with_total size db name file :
  exists r, upload_with size db name file = Some r.
Proof.
  unfold upload_with. destruct (negb _); [eauto|].
  edestruct (read_loop_total size (S (length (content file))) (content file))
    as [[st [[]|e]] ->]; [lia| |eauto].
  destruct (flush st) as [st' [[]|e]]; eauto.
Qed.

Variables (size : Z) (sz : nat).
Hypothesis Hsz : Z.to_nat size = sz.
Hypothesis Hbig : (4 <= sz)%nat.
Variables (c1 c2 post : list byte).
Hypothesis Hc1 : c1 <> [].
Hypothesis Hc2 : c2 <> [].
Hypothesis Hchar : one_char (c1 ++ c2).

(** A character that straddles the end of chunk [k + 1] ends the loop with
    an exception: the one of [decode] when no earlier chunk raised. *)
Lemma straddle_loop : forall k fuel pre st,
  (k < fuel)%nat -> length (pre ++ c1) = (S k * sz)%nat ->
  exists st' e,
    read_loop fuel size (pre ++ c1 ++ c2 ++ post) st = Some (st', Raise e)
    /\ (k = 0%nat -> e = UnicodeDecodeError /\ st' = st).
Proof.
  pose proof (one_char_length c1 c2 Hc2 Hchar) as Hlen.
  induction k as [|k IH]; intros fuel pre st Hf Hl;
    (destruct fuel as [|fuel]; [lia|]); cbn [read_loop]; unfold read; rewrite Hsz.
  - assert (E : sz = length (pre ++ c1)) by lia.
    rewrite (app_assoc pre c1), E, take_app_length.
    pose proof (straddle_decode_fails pre c1 c2 Hc1 Hc2 Hchar) as Hd.
    destruct (pre ++ c1) as [|b l] eqn:Epc.
    + apply app_eq_nil in Epc. tauto.
    + rewrite Hd. eauto.
  - rewrite length_app in Hl.
    assert (Hpre : (sz <= length pre)%nat) by (simpl in Hl; lia).
    rewrite take_app_le, drop_app_le by assumption.
    destruct (firstn sz pre) as [|b chunk] eqn:E.
    + apply (f_equal (@length byte)) in E. rewrite length_firstn in E. simpl in E. lia.
    + destruct (decode (b :: chunk)) as [text|e]; [|exists st, e; split; [reflexivity|discriminate]].
      destruct (for_lines (splitlines text) st) as [st' [[]|e]];
        [|exists st', e; split; [reflexivity|discriminate]].
      destruct (IH fuel (skipn sz pre) st') as (st'' & e & H & _).
      * lia.
      * rewrite length_app, length_skipn. simpl in Hl. lia.
      * exists st'', e. split; [assumption|discriminate].
Qed.

End ReadLoop.

(** C10.  For an accepted file name and a stream in which a character of
    several bytes straddles the end of a chunk of 1 MiB, the upload ends
    with an exception.  When the character straddles the end of the first
    chunk, the exception is the [UnicodeDecodeError] of [decode]: it is not
    the [JSONDecodeError] that the loop over the lines catches, and it is
    not turned into the [HTTPException] with status 500 that a failed bulk
    write becomes. *)
Theorem straddling_char_aborts (db : database) (name fname : pystr)
    (pre c1 c2 post : list byte) (k : nat) :
  accepted fname = true ->
  c1 <> [] -> c2 <> [] -> one_char (c1 ++ c2) ->
  Z.of_nat (length (pre ++ c1)) = ((Z.of_nat k + 1) * (1024 * 1024))%Z ->
  exists db' e,
    upload_tracee db name {| filename := fname; content := pre ++ c1 ++ c2 ++ post |}
    = Some (db', Raise e)
    /\ (k = 0%nat -> e = UnicodeDecodeError).
Proof.
  intros Ha H1 H2 Hc Hl. unfold upload_tracee, upload_with.
  unfold accepted in Ha. cbn [filename content]. rewrite Ha. cbn [negb].
  set (sz := Z.to_nat (1024 * 1024)).
  assert (Hz : Z.of_nat sz = (1024 * 1024)%Z) by (subst sz; rewrite Z2Nat.id; lia).
  assert (Hl' : length (pre ++ c1) = (S k * sz)%nat).
  { apply Nat2Z.inj. rewrite Hl, Nat2Z.inj_mul, Hz. lia. }
  match goal with
  | |- context [read_loop ?f _ _ ?st] =>
      destruct (straddle_loop (1024 * 1024) sz eq_refl ltac:(lia) c1 c2 post H1 H2 Hc k
                  f pre st) as (st' & e & -> & Hk)
  end.
  - rewrite app_assoc, length_app, Hl'. nia.
  - assumption.
  - exists (<[name := stored st']> db), (on_bulk_write_error e). split; [reflexivity|].
    intros Hk0. destruct (Hk Hk0) as [-> _]. reflexivity.
Qed.

Section Chunks.

Lemma read_loop_step fuel size stream st :
  read_loop (S fuel) size stream st
  = match firstn (Z.to_nat size) stream with
    | [] => Some (st, Ok tt)
    | _ :: _ =>
        match decode (firstn (Z.to_nat size) stream) with
        | Raise e => Some (st, Raise e)
        | Ok text =>
            match for_lines (splitlines text) st with
            | (st', Ok _) => read_loop fuel size (skipn (Z.to_nat size) stream) st'
            | (st', Raise e) => Some (st', Raise e)
            end
        end
    end.
Proof. reflexivity. Qed.

Lemma for_lines_app l1 : forall l2 st,
  for_lines (l1 ++ l2) st
  = match for_lines l1 st with
    | (st', Ok _) => for_lines l2 st'
    | (st', Raise e) => (st', Raise e)
    end.
Proof.
  induction l1 as [|line l1 IH]; intros l2 st; [reflexivity|].
  cbn [app for_lines]. destruct (Json.loads line) as [event|]; [|apply IH].
  destruct (batch_size <=? _)%Z; [|apply IH].
  destruct (insert_many _ _) as [c [[]|e]]; [apply IH|reflexivity].
Qed.

(** The last chunk of a stream: the loop ends after it. *)
Lemma read_loop_last fuel size chunk st :
  chunk <> [] -> (length chunk <= Z.to_nat size)%nat ->
  read_loop (S (S fuel)) size chunk st
  = match decode chunk with
    | Raise e => Some (st, Raise e)
    | Ok text =>
        match for_lines (splitlines text) st with
        | (st', Ok _) => Some (st', Ok tt)
        | (st', Raise e) => Some (st', Raise e)
        end
    end.
Proof.
  intros Hne Hlen. rewrite read_loop_step.
  rewrite firstn_all2, skipn_all2 by assumption.
  destruct chunk as [|b chunk]; [easy|].
  destruct (decode (b :: chunk)) as [text|e]; [|reflexivity].
  destruct (for_lines (splitlines text) st) as [st' [[]|e]]; [|reflexivity].
  now rewrite read_loop_step, firstn_nil.
Qed.

Variables (size : Z) (db : database) (name fname : pystr).
Hypothesis Hname : accepted fname = true.

(** A stream of one chunk is ingested as the lines of its text. *)
Lemma upload_one_chunk stream text :
  stream <> [] -> (length stream <= Z.to_nat size)%nat ->
  decode stream = Ok text ->
  upload_with size db name {| filename := fname; content := stream |}
  = Some (ingest_lines db name (splitlines text)).
Proof.
  intros Hne Hlen Hd. unfold upload_with, ingest_lines. cbn [filename content].
  unfold accepted in Hname. rewrite Hname. cbn [negb].
  destruct stream as [|b stream']; [easy|]. cbn [length].
  rewrite read_loop_last, Hd by (try assumption; discriminate).
  destruct (for_lines (splitlines text) _) as [st' [[]|e]]; [|reflexivity].
  destruct (flush st') as [st'' [[]|e]]; reflexivity.
Qed.

(** A stream of two chunks is ingested as the lines of the text of the
    first chunk followed by the lines of the text of the second chunk. *)
Lemma upload_two_chunks chunk1 chunk2 text1 text2 :
  chunk1 <> [] -> chunk2 <> [] ->
  length chunk1 = Z.to_nat size -> (length chunk2 <= Z.to_nat size)%nat ->
  decode chunk1 = Ok text1 -> decode chunk2 = Ok text2 ->
  upload_with size db name {| filename := fname; content := chunk1 ++ chunk2 |}
  = Some (ingest_lines db name (splitlines text1 ++ splitlines text2)).
Proof.
  intros Hne1 Hne2 Hl1 Hl2 Hd1 Hd2. unfold upload_with, ingest_lines.
  cbn [filename content]. unfold accepted in Hname. rewrite Hname. cbn [negb].
  rewrite for_lines_app.
  assert (Hf : exists f, length (chunk1 ++ chunk2) = S (S f)).
  { rewrite length_app. destruct chunk1; [easy|]. destruct chunk2; [easy|].
    cbn [length]. exists (length chunk1 + length chunk2)%nat. lia. }
  destruct Hf as [f ->].
  rewrite read_loop_step, <- Hl1, take_app_length, drop_app_length.
  destruct chunk1 as [|b1 chunk1']; [easy|]. rewrite Hd1.
  destruct (for_lines (splitlines text1) _) as [st1 [[]|e]]; [|reflexivity].
  rewrite read_loop_last, Hd2 by assumption.
  destruct (for_lines (splitlines text2) st1) as [st2 [[]|e]]; [|reflexivity].
  destruct (flush st2) as [st3 [[]|e]]; reflexivity.
Qed.

End Chunks.

Section BlankLines.

Lemma replicate_succ {A} n (x : A) : replicate (N.succ n) x = x :: replicate n x.
Proof. unfold replicate. apply N.iter_succ. Qed.

Lemma replicate_length {A} n (x : A) : length (replicate n x) = N.to_nat n.
Proof.
  induction n using N.peano_ind; [reflexivity|].
  rewrite replicate_succ, N2Nat.inj_succ. cbn [length]. now f_equal.
Qed.

Lemma replicate_map {A B} (f : A -> B) n x :
  List.map f (replicate n x) = replicate n (f x).
Proof.
  induction n using N.peano_ind; [reflexivity|].
  rewrite !replicate_succ. cbn [List.map]. now f_equal.
Qed.

Lemma replicate_forallb {A} (p : A -> bool) n x :
  p x = true -> forallb p (replicate n x) = true.
Proof.
  intros Hp. induction n using N.peano_ind; [reflexivity|].
  rewrite replicate_succ. cbn [forallb]. now rewrite Hp.
Qed.

Lemma replicate_filter {A} (p : A -> bool) n x :
  List.filter p (replicate n x) = if p x then replicate n x else [].
Proof.
  induction n using N.peano_ind; [now destruct (p x)|].
  rewrite !replicate_succ. cbn [List.filter]. rewrite IHn. now destruct (p x).
Qed.

Lemma utf8_decode_ascii l :
  forallb (fun c => c <? 128) l = true -> utf8_decode l = Some l.
Proof.
  induction l as [|c l IH]; [reflexivity|]. cbn [forallb]. intros H.
  apply andb_true_iff in H as [Hc Hl]. rewrite utf8_decode_cons, Hc, IH by assumption.
  reflexivity.
Qed.

Lemma decode_ascii bs : forallb is_ascii bs = true -> decode bs = Ok (text_of bs).
Proof.
  intros H. unfold decode. rewrite utf8_decode_ascii; [reflexivity|].
  induction bs as [|b bs IH]; [reflexivity|]. cbn [forallb List.map] in *.
  apply andb_true_iff in H as [Hb Hbs]. unfold is_ascii in Hb. now rewrite Hb, IH.
Qed.

Lemma splitlines_blank n t :
  splitlines (replicate n 10 ++ t) = replicate n [] ++ splitlines t.
Proof.
  induction n using N.peano_ind; [reflexivity|].
  rewrite !replicate_succ. cbn [app]. rewrite <- IHn. reflexivity.
Qed.

Lemma for_lines_blank n lines st :
  for_lines (replicate n [] ++ lines) st = for_lines lines st.
Proof.
  induction n using N.peano_ind; [reflexivity|].
  rewrite replicate_succ. cbn [app]. exact IHn.
Qed.

Lemma ingest_lines_blank db name a n b :
  ingest_lines db name (a ++ replicate n [] ++ b) = ingest_lines db name (a ++ b).
Proof.
  unfold ingest_lines. rewrite !for_lines_app.
  destruct (for_lines a _) as [st [[]|e]]; [|reflexivity].
  now rewrite for_lines_blank.
Qed.

Variables (first head tail : list byte) (first_text : list pystr) (n : N).
Hypothesis Hfirst : forallb is_ascii first = true.
Hypothesis Hhead : forallb is_ascii head = true.
Hypothesis Htail : forallb is_ascii tail = true.
Hypothesis Hlines : forall t, splitlines (text_of first ++ t) = first_text ++ splitlines t.

Lemma padded_text rest :
  forallb is_ascii rest = true ->
  decode (first ++ blank n ++ rest)
  = Ok (text_of first ++ replicate n 10 ++ text_of rest).
Proof.
  intros Hrest. rewrite decode_ascii.
  - unfold text_of, blank. now rewrite !List.map_app, replicate_map.
  - rewrite !forallb_app, Hfirst, Hrest. unfold blank.
    now rewrite replicate_forallb.
Qed.

(** The lines of the stream as a whole. *)
Lemma padded_lines rest :
  forallb is_ascii rest = true ->
  stream_lines (first ++ blank n ++ rest)
  = first_text ++ replicate n [] ++ splitlines (text_of rest).
Proof.
  intros Hrest. unfold stream_lines. rewrite padded_text by assumption.
  now rewrite Hlines, splitlines_blank.
Qed.

Variables (size : Z) (db : database) (name fname : pystr).
Hypothesis Hname : accepted fname = true.
Hypothesis Hh : head <> [].
Hypothesis Ht : tail <> [].

(** The chunk ends between [head] and [tail]. *)
Lemma padded_two_chunks :
  (length first + N.to_nat n + length head)%nat = Z.to_nat size ->
  (length tail <= Z.to_nat size)%nat ->
  upload_with size db name
    {| filename := fname; content := first ++ blank n ++ head ++ tail |}
  = Some (ingest_lines db name
            (first_text ++ splitlines (text_of head) ++ splitlines (text_of tail))).
Proof.
  intros Hl1 Hl2.
  replace (first ++ blank n ++ head ++ tail) with ((first ++ blank n ++ head) ++ tail)
    by now rewrite <- !app_assoc.
  rewrite (upload_two_chunks size db name fname Hname _ _
             (text_of first ++ replicate n 10 ++ text_of head) (text_of tail)).
  - rewrite Hlines, splitlines_blank, <- !app_assoc. now rewrite ingest_lines_blank.
  - intros E. apply app_eq_nil in E as [_ E]. apply app_eq_nil in E. tauto.
  - assumption.
  - unfold blank. rewrite !length_app, replicate_length. lia.
  - assumption.
  - now apply padded_text.
  - now apply decode_ascii.
Qed.

(** The whole stream is one chunk. *)
Lemma padded_one_chunk :
  (length first + N.to_nat n + length head + length tail <= Z.to_nat size)%nat ->
  upload_with size db name
    {| filename := fname; content := first ++ blank n ++ head ++ tail |}
  = Some (ingest_lines db name (first_text ++ splitlines (text_of (head ++ tail)))).
Proof.
  intros Hl.
  rewrite (upload_one_chunk size db name fname Hname _
             (text_of first ++ replicate n 10 ++ text_of (head ++ tail))).
  - rewrite Hlines, splitlines_blank. now rewrite ingest_lines_blank.
  - intros E. apply app_eq_nil in E as [_ E]. apply app_eq_nil in E as [_ E].
    apply app_eq_nil in E. tauto.
  - unfold blank. rewrite !length_app, replicate_length. lia.
  - apply padded_text. now rewrite forallb_app, Hhead, Htail.
Qed.

End BlankLines.

Section SpanningLine.

Lemma no_first_lines t : splitlines (text_of [] ++ t) = [] ++ splitlines t.
Proof. reflexivity. Qed.

Lemma first_lines_text t :
  splitlines (text_of first_lines ++ t)
  = stream_lines first_lines ++ splitlines t.
Proof. vm_compute. reflexivity. Qed.

Lemma count_padded (p : pystr -> bool) (first_text : list pystr) n
    (rest_text : list pystr) :
  Z.of_nat (length (List.filter p (first_text ++ replicate n [] ++ rest_text)))
  = (Z.of_nat (length (List.filter p first_text))
     + (if p [] then Z.of_N n else 0)
     + Z.of_nat (length (List.filter p rest_text)))%Z.
Proof.
  rewrite !List.filter_app, !length_app, replicate_filter.
  unfold pystr in *.
  destruct (p []); [rewrite replicate_length|cbn [length]]; lia.
Qed.

End SpanningLine.

(** ** Within one chunk the count is the number of event lines *)

Section OneChunk.

Lemma insert_ordered_plain b : forall c,
  forallb is_plain_event b = true -> exists c', insert_ordered b c = (c', Ok tt).
Proof.
  induction b as [|doc b IH]; intros c H; [now exists c|].
  cbn [forallb] in H. apply andb_true_iff in H as [Hd Hb].
  cbn [insert_ordered]. destruct doc; try discriminate. simpl in Hd.
  destruct (dict_lookup (py "_id") d); [discriminate|]. now apply IH.
Qed.

Lemma plain_is_document b :
  forallb is_plain_event b = true -> forallb is_document b = true.
Proof.
  induction b as [|doc b IH]; [reflexivity|]. cbn [forallb]. intros H.
  apply andb_true_iff in H as [Hd Hb]. rewrite IH by assumption.
  now destruct doc.
Qed.

Lemma insert_many_plain b c :
  b <> [] -> forallb is_plain_event b = true ->
  exists c', insert_many b c = (c', Ok tt).
Proof.
  intros Hne Hb. unfold insert_many. destruct b as [|doc b]; [easy|].
  rewrite plain_is_document by assumption. now apply insert_ordered_plain.
Qed.

Lemma loads_plain line :
  is_plain_event_line line = true ->
  exists doc, Json.loads line = Some doc /\ is_plain_event doc = true
              /\ is_event_line line = true.
Proof.
  unfold is_plain_event_line, is_event_line.
  destruct (Json.loads line) as [[]|]; try discriminate.
  intros H. eexists. split; [reflexivity|]. split; [exact H|reflexivity].
Qed.

Lemma forallb_snoc {A} (p : A -> bool) l x :
  forallb p l = true -> p x = true -> forallb p (l ++ [x]) = true.
Proof. intros Hl Hx. rewrite forallb_app, Hl. simpl. now rewrite Hx. Qed.

(** The loop over lines that are malformed or plain event lines does not
    raise, and the count plus the pending batch grows by the number of
    event lines. *)
Lemma for_lines_count lines : forall st,
  forallb (fun l => is_malformed_line l || is_plain_event_line l) lines = true ->
  forallb is_plain_event (batch st) = true ->
  exists st',
    for_lines lines st = (st', Ok tt)
    /\ forallb is_plain_event (batch st') = true
    /\ (inserted_count st' + Z.of_nat (length (batch st'))
        = inserted_count st + Z.of_nat (length (batch st)) + events_of lines)%Z.
Proof.
  unfold events_of.
  induction lines as [|line lines IH]; intros st Hl Hb.
  - exists st. repeat split; [assumption|simpl; lia].
  - cbn [forallb] in Hl. apply andb_true_iff in Hl as [Hline Hl].
    cbn [for_lines List.filter]. apply orb_true_iff in Hline as [Hm|Hp].
    + assert (He : is_event_line line = false).
      { unfold is_event_line, is_malformed_line in *.
        now destruct (Json.loads line). }
      rewrite He. unfold is_malformed_line in Hm.
      destruct (Json.loads line); [discriminate|].
      destruct (IH st Hl Hb) as (st' & -> & Hb' & Hc). exists st'. now repeat split.
    + destruct (loads_plain line Hp) as (doc & -> & Hdoc & ->).
      pose proof (forallb_snoc _ _ _ Hb Hdoc) as Hb1.
      destruct (batch_size <=? _)%Z.
      * destruct (insert_many_plain (batch st ++ [doc]) (stored st)) as [c ->];
          [now destruct (batch st)|assumption|].
        edestruct IH as (st' & -> & Hb' & Hc); [exact Hl|reflexivity|].
        exists st'. repeat split; [assumption|]. rewrite Hc. cbn [inserted_count batch length].
        rewrite length_app. cbn [length]. lia.
      * edestruct IH as (st' & -> & Hb' & Hc); [exact Hl|exact Hb1|].
        exists st'. repeat split; [assumption|]. rewrite Hc. cbn [inserted_count batch length].
        rewrite length_app. cbn [length]. lia.
Qed.

Lemma flush_count st :
  forallb is_plain_event (batch st) = true ->
  exists st',
    flush st = (st', Ok tt)
    /\ inserted_count st' = (inserted_count st + Z.of_nat (length (batch st)))%Z.
Proof.
  intros Hb. unfold flush. destruct (batch st) as [|doc b] eqn:E.
  - exists st. split; [reflexivity|simpl; lia].
  - destruct (insert_many_plain (doc :: b) (stored st)) as [c ->]; [easy|assumption|].
    eexists. split; reflexivity.
Qed.

Lemma ingest_lines_count db name lines :
  forallb (fun l => is_malformed_line l || is_plain_event_line l) lines = true ->
  exists db',
    ingest_lines db name lines
    = (db', Ok {| collection_name := name; documents_inserted := events_of lines |}).
Proof.
  intros Hl. unfold ingest_lines.
  edestruct (for_lines_count lines) as (st & -> & Hb & Hc); [exact Hl|reflexivity|].
  destruct (flush_count st Hb) as (st' & -> & Hc').
  eexists. do 3 f_equal. cbn [inserted_count batch length] in Hc. lia.
Qed.

(** A stream of at most one chunk of 1 MiB whose lines are malformed lines
    or event lines without an [_id]: the upload skips the malformed lines
    and returns the number of event lines. *)
Theorem single_chunk_count (db : database) (name fname : pystr)
    (stream : list byte) (text : pystr) :
  accepted fname = true ->
  (Z.of_nat (length stream) <= 1024 * 1024)%Z ->
  decode stream = Ok text ->
  forallb (fun l => is_malformed_line l || is_plain_event_line l) (splitlines text) = true ->
  inserted (upload_tracee db name {| filename := fname; content := stream |})
  = Some (Ok (events_of (splitlines text))).
Proof.
  intros Ha Hlen Hd Hl. unfold upload_tracee.
  destruct (ingest_lines_count db name (splitlines text) Hl) as [db' Hi].
  destruct stream as [|b stream].
  - unfold decode in Hd. simpl in Hd. inversion Hd; subst. simpl in Hi.
    unfold upload_with, accepted in *. cbn [filename content]. rewrite Ha.
    cbn [negb length]. rewrite read_loop_step, firstn_nil. reflexivity.
  - rewrite (upload_one_chunk (1024 * 1024) db name fname Ha (b :: stream) text);
      [|discriminate|lia|assumption].
    rewrite Hi. reflexivity.
Qed.

End OneChunk.

Example single_chunk_count_ls :
  inserted (upload_tracee ∅ trace_name (trace_file (jsonl ls_trace))) = Some (Ok 7%Z).
Proof.
  rewrite (single_chunk_count ∅ trace_name (py "trace.jsonl") (jsonl ls_trace)
             (text_of (jsonl ls_trace))).
  - vm_compute. reflexivity.
  - vm_compute. reflexivity.
  - vm_compute. discriminate.
  - vm_compute. reflexivity.
  - vm_compute. reflexivity.
Qed.

(** The side conditions of the lemmas on padded streams, for parts that
    are small closed lists; [lines] is the fact on the first lines. *)
Ltac stream_side lines :=
  lazymatch goal with
  | |- forallb is_ascii _ = true => vm_compute; reflexivity
  | |- accepted _ = true => vm_compute; reflexivity
  | |- forall t, splitlines _ = _ => exact lines
  | |- _ <> [] => discriminate
  | |- _ =>
      repeat match goal with
             | |- context [length ?l] =>
                 let n := eval vm_compute in (length l) in
                 progress change (length l) with n
             end;
      lia
  end.

(** C1.  The stream is 1048556 empty lines and one event line, whose first
    20 bytes end the first chunk of 1 MiB.  As a whole it has one event
    line.  The upload inserts no document: the spanning line is lost.  Read
    in one chunk of 2 MiB the same stream gives one document. *)
Theorem spanning_line_is_lost :
  count_lines is_event_line spanning_stream = 1%Z
  /\ inserted (upload_tracee ∅ trace_name (trace_file spanning_stream))
     = Some (Ok 0%Z)
  /\ inserted (upload_with (2 * 1024 * 1024) ∅ trace_name (trace_file spanning_stream))
     = Some (Ok 1%Z).
Proof.
  unfold spanning_stream, trace_file, upload_tracee, count_lines.
  split; [|split].
  - rewrite (padded_lines [] [] (1024 * 1024 - 20)) by stream_side no_first_lines.
    rewrite count_padded. vm_compute. reflexivity.
  - rewrite (padded_two_chunks [] event_head event_tail [] (1024 * 1024 - 20))
      by stream_side no_first_lines.
    vm_compute. reflexivity.
  - rewrite (padded_one_chunk [] event_head event_tail [] (1024 * 1024 - 20))
      by stream_side no_first_lines.
    vm_compute. reflexivity.
Qed.

(** C2.  The stream has two event lines and 1048478 malformed lines: one
    line that is not JSON and the empty lines.  The upload returns 1: the
    malformed lines are skipped without an error, and so is the event line
    that spans the end of the first chunk. *)
Theorem count_misses_spanning_line :
  count_lines is_event_line mixed_stream = 2%Z
  /\ count_lines is_malformed_line mixed_stream = (1 + (1024 * 1024 - 99))%Z
  /\ inserted (upload_tracee ∅ trace_name (trace_file mixed_stream))
     = Some (Ok 1%Z).
Proof.
  unfold mixed_stream, trace_file, upload_tracee, count_lines.
  split; [|split].
  - rewrite (padded_lines first_lines (stream_lines first_lines) (1024 * 1024 - 99))
      by stream_side first_lines_text.
    rewrite count_padded. vm_compute. reflexivity.
  - rewrite (padded_lines first_lines (stream_lines first_lines) (1024 * 1024 - 99))
      by stream_side first_lines_text.
    rewrite count_padded. vm_compute. reflexivity.
  - rewrite (padded_two_chunks first_lines event_head event_tail
               (stream_lines first_lines) (1024 * 1024 - 99))
      by stream_side first_lines_text.
    vm_compute. reflexivity.
Qed.

(** Witness of C10: a megabyte less one byte of the letter a, then the
    two bytes of an accented letter. *)
Lemma straddling_char_aborts_witness :
  exists db',
    upload_tracee ∅ trace_name (trace_file accent_stream)
    = Some (db', Raise UnicodeDecodeError).
Proof.
  destruct (straddling_char_aborts ∅ trace_name (py "trace.jsonl")
              accent_pre [xc3] [xa9] [x0a] 0)
    as (db' & e & H & He).
  - vm_compute. reflexivity.
  - discriminate.
  - discriminate.
  - exists 233. vm_compute. reflexivity.
  - unfold accent_pre. rewrite length_app, replicate_length. cbn [length]. lia.
  - exists db'. rewrite (He eq_refl) in H. exact H.
Defined.

